(** * The exception catcher's aggregation and query engine (server/server.py)

    A shallow embedding of the datastore-facing part of [server.py]:
    [generateHash], [getProject], [getAggregatedError], [putException],
    [getErrors], [filterErrors], [getInstances], [filterData] and the
    request handlers [ReportPage], [ReportWorker], [StatPage] and
    [ResolvePage].

    Modelling conventions.
    - The datastore, the queue table and memcache form one explicit
      [State]; every function of the source that touches them is a
      computation in the monad [DB], which threads the state and keeps
      it when a Python exception is raised (writes made before the
      exception stay made).
    - A [datetime] is the integer number of seconds it denotes
      ([datetime.fromtimestamp] is the identity on the integers it
      accepts); fractional timestamps are left out.
    - Entity keys are natural numbers handed out by a counter that never
      goes back, as datastore ids are never reused.  The lists [errors]
      and [instances] keep the entities in the order of these numbers,
      which is the order of the keys under one parent.  How the
      datastore orders entities of different parents that tie under the
      sort order of a query is not modelled: the statements about
      listings leave the order among ties open.
    - Libraries outside the repository ([hashlib.md5], [json]) and the
      repository's own [backtrace] module, whose source is not part of
      [server.py], are fields of the class [Externals].  So is what
      depends on the interpreter and the platform: what [int()] and
      [split()] make of a text with signs, blanks or characters outside
      printable ASCII, and the timestamps [datetime.fromtimestamp]
      accepts.
    - Property validation done by the datastore library (length and
      line-break limits of [StringProperty], the 64-bit range of
      [IntegerProperty]) is not modelled.  *)

From Stdlib Require Import ZArith String Ascii List DecimalString.
From stdpp Require Import base option list strings gmap sorting.

Local Open Scope string_scope.
Local Open Scope Z_scope.
Local Open Scope list_scope.

#[local] Set Warnings "-clear-no-such-hyp".

(** ** Python built-ins used by the server *)

Module Py.

(** The exceptions the modelled code can raise, by class: an exception
    of a subclass counts as one of its class, so that [ValueError]
    takes in the [UnicodeEncodeError] of [str()] and [int()].
    [BadArgumentError] is the datastore's. *)
Inductive exn :=
| KeyError (k : string)
| TypeError
| ValueError
| OverflowError
| AttributeError
| BadArgumentError.

(** The characters below 256 that are whitespace for a unicode text:
    tab to carriage return, the four separators from 28 on, the space,
    the next-line control and the no-break space. *)
Definition isspace (c : ascii) : bool :=
  let n := nat_of_ascii c in
  bool_decide (n = 32%nat) || (bool_decide (9 ≤ n)%nat && bool_decide (n ≤ 13)%nat)
  || (bool_decide (28 ≤ n)%nat && bool_decide (n ≤ 31)%nat)
  || bool_decide (n = 133%nat) || bool_decide (n = 160%nat).

(** A text of printable ASCII characters, the space among them. *)
Definition plain (s : string) : bool :=
  forallb (λ c, bool_decide (32 ≤ nat_of_ascii c)%nat && bool_decide (nat_of_ascii c ≤ 126)%nat)
    (list_ascii_of_string s).

(** A text of ASCII characters. *)
Definition isascii (s : string) : bool :=
  forallb (λ c, bool_decide (nat_of_ascii c < 128)%nat) (list_ascii_of_string s).

Definition isdigit (c : ascii) : bool :=
  let n := nat_of_ascii c in
  bool_decide (48 ≤ n)%nat && bool_decide (n ≤ 57)%nat.

(** [s[:n]] *)
Definition slice_to (n : nat) (s : string) : string := substring 0 n s.

(** [s.replace('\n', ' ')] *)
Fixpoint replace_newline (s : string) : string :=
  match s with
  | EmptyString => EmptyString
  | String c s' =>
      String (if bool_decide (nat_of_ascii c = 10%nat) then " "%char else c)
             (replace_newline s')
  end.

(** [s.split()]: the maximal runs of non-whitespace characters.
    [cur] is the run being read, in reverse. *)
Fixpoint split_go (cur : list ascii) (s : string) : list string :=
  let flush := match cur with
               | [] => []
               | _ => [string_of_list_ascii (rev cur)]
               end in
  match s with
  | EmptyString => flush
  | String c s' =>
      if isspace c then flush ++ split_go [] s' else split_go (c :: cur) s'
  end.

Definition split (s : string) : list string := split_go [] s.

(** [' '.join(l)] *)
Fixpoint join_space (l : list string) : string :=
  match l with
  | [] => ""
  | [x] => x
  | x :: l' => x +:+ " " +:+ join_space l'
  end.

(** [s.strip()] on a list of characters. *)
Fixpoint lstrip (l : list ascii) : list ascii :=
  match l with
  | c :: l' => if isspace c then lstrip l' else l
  | [] => []
  end.

Definition strip (l : list ascii) : list ascii := rev (lstrip (rev (lstrip l))).

(** Value of a run of decimal digits, [None] on any other character. *)
Fixpoint digits_value (acc : Z) (l : list ascii) : option Z :=
  match l with
  | [] => Some acc
  | c :: l' =>
      if isdigit c
      then digits_value (10 * acc + (Z.of_nat (nat_of_ascii c) - 48)) l'
      else None
  end.

(** The value of a text that is a run of ASCII digits, not empty and
    of at most 4300 digits, which no interpreter refuses for its
    length. *)
Definition numeral (s : string) : option Z :=
  match list_ascii_of_string s with
  | [] => None
  | l => if bool_decide (length l ≤ 4300)%nat then digits_value 0 l else None
  end.

(** A reading of the decimal texts with a sign and blanks around them:
    surrounding whitespace, an optional sign, then at least one decimal
    digit.  It is what the sample inputs take for [int()] beyond the
    runs of digits. *)
Definition signed_numeral (s : string) : option Z :=
  match strip (list_ascii_of_string s) with
  | [] => None
  | c :: l =>
      if bool_decide (c = "-"%char) then
        match l with [] => None | _ => Z.opp <$> digits_value 0 l end
      else if bool_decide (c = "+"%char) then
        match l with [] => None | _ => digits_value 0 l end
      else digits_value 0 (c :: l)
  end.

(** [str(n)] for a non-negative integer. *)
Definition str_of_nat (n : nat) : string := NilEmpty.string_of_uint (Nat.to_uint n).

End Py.

Export Py(exn(..)).

(** ** Data model *)

(** [class Level] *)
Module Level.
Definition DEBUG : Z := 0.
Definition INFO : Z := 10.
Definition WARNING : Z := 20.
Definition ERROR : Z := 30.
End Level.

(** A decoded JSON value, as far as the server looks into it: the
    [timestamp] of a report and the [userId] of its context are
    converted by Python, everything compound is opaque. *)
Inductive json :=
| JNull
| JBool (b : bool)
| JInt (n : Z)
| JStr (s : string)
| JCompound.

#[global] Instance json_eq_dec : EqDecision json.
Proof. solve_decision. Defined.

(** The report dictionary handed to [putException].  A field that is
    [None] is a key the dictionary does not have; the string-valued
    keys hold strings when present, [message] may also hold [null]. *)
Module Report.
Record t := mk {
  backtrace : option string;
  environment : option string;
  message : option (option string);
  project : option string;
  serverName : option string;
  timestamp : option json;
  type : option string;
  logMessage : option string;
  context : option (gmap string json)
}.
End Report.

(** [class LoggedErrorV2(db.Model)], with the entity's key and the key
    name of its parent [Project]. *)
Module LoggedErrorV2.
Record t := mk {
  key : nat;
  parent_key : string;
  backtrace : string;
  type : string;
  hash : string;
  active : bool;
  count : Z;
  level : Z;
  firstOccurrence : Z;
  lastOccurrence : Z;
  lastMessage : string;
  environments : list string;
  servers : list string
}.
End LoggedErrorV2.

(** [class LoggedErrorInstanceV2(db.Model)]; [parent_key] is the key of
    the [LoggedErrorV2] it was created under and [project_key] the key
    name of the [Project] at the root of its key path. *)
Module LoggedErrorInstanceV2.
Record t := mk {
  key : nat;
  parent_key : nat;
  project_key : string;
  environment : string;
  date : Z;
  message : string;
  server : string;
  logMessage : option string;
  context : option string;
  affectedUser : option Z
}.
End LoggedErrorInstanceV2.

Abbreviation Error := LoggedErrorV2.t.
Abbreviation Instance := LoggedErrorInstanceV2.t.

(** The datastore tables and memcache.
    - [projects]: key names of the [Project] entities;
    - [errors], [instances]: the entities of the two kinds, in key order;
    - [queue]: the [Queue] entities, key to [payload];
    - [next_id]: the id the datastore gives to the next new entity;
    - [cache_project]: the names [name] with a memcache entry under
      ['project:%s' % name], which holds the serialized Project [name];
    - [cache_error]: memcache entries written by [getAggregatedError],
      indexed by the whole key string.
    The two families of memcache keys are kept apart: the second begins
    with the text of a model instance (see [getAggregatedError]), never
    with [project:]. *)
Record State := mkState {
  projects : gset string;
  errors : list Error;
  instances : list Instance;
  queue : gmap nat string;
  next_id : nat;
  cache_project : gset string;
  cache_error : gmap string Error
}.

Definition empty_state : State :=
  {| projects := ∅; errors := []; instances := []; queue := ∅; next_id := 0;
     cache_project := ∅; cache_error := ∅ |}.

(** ** Computations over the store *)

Inductive outcome (A : Type) :=
| Returns (a : A)
| Raises (e : exn).
Arguments Returns {A} a.
Arguments Raises {A} e.

(** A computation returns or raises, and hands on the state it reached
    in both cases. *)
Definition DB (A : Type) : Type := State → outcome A * State.

#[global] Instance DB_ret : MRet DB := λ A a st, (Returns a, st).

#[global] Instance DB_bind : MBind DB := λ A B f m st,
  match m st with
  | (Returns a, st') => f a st'
  | (Raises e, st') => (Raises e, st')
  end.

(** A step that returns or raises without touching the store. *)
Definition lift {A} (o : outcome A) : DB A := λ st, (o, st).

Definition raise {A} (e : exn) : DB A := lift (Raises e).

Definition gets {A} (f : State → A) : DB A := λ st, (Returns (f st), st).

Definition modify (f : State → State) : DB unit := λ st, (Returns tt, f st).

(** [d[k]] on a dictionary whose key [k] may be absent. *)
Definition getitem {A} (k : string) (v : option A) : outcome A :=
  match v with
  | Some a => Returns a
  | None => Raises (KeyError k)
  end.

(** *** Datastore and memcache primitives *)

(** [entity.put()] for a [LoggedErrorV2] that has a key: the entity
    stored under that key is replaced; if there is none the entity is
    stored at its place in key order. *)
Fixpoint put_error (e : Error) (l : list Error) : list Error :=
  match l with
  | [] => [e]
  | x :: l' =>
      if bool_decide (LoggedErrorV2.key x = LoggedErrorV2.key e) then e :: l'
      else if bool_decide (LoggedErrorV2.key e < LoggedErrorV2.key x)%nat then e :: x :: l'
      else x :: put_error e l'
  end.

(** [LoggedErrorV2.get(key)] *)
Definition get_error (k : nat) (l : list Error) : option Error :=
  List.find (λ x, bool_decide (LoggedErrorV2.key x = k)) l.

Definition db_put_error (e : Error) : DB unit :=
  modify (λ st, {| projects := projects st; errors := put_error e (errors st);
                   instances := instances st; queue := queue st; next_id := next_id st;
                   cache_project := cache_project st; cache_error := cache_error st |}).

(** [instance.put()] for a new instance: always a fresh key, so the
    entity goes last. *)
Definition db_put_instance (i : Instance) : DB unit :=
  modify (λ st, {| projects := projects st; errors := errors st;
                   instances := instances st ++ [i]; queue := queue st; next_id := next_id st;
                   cache_project := cache_project st; cache_error := cache_error st |}).

(** The id allocated by the first [put()] of a new entity. *)
Definition allocate_id : DB nat :=
  λ st, (Returns (next_id st),
         {| projects := projects st; errors := errors st; instances := instances st;
            queue := queue st; next_id := S (next_id st);
            cache_project := cache_project st; cache_error := cache_error st |}).

(** [Project.get_or_insert(name)] *)
Definition get_or_insert (name : string) : DB string :=
  λ st, (Returns name,
         {| projects := {[name]} ∪ projects st; errors := errors st;
            instances := instances st; queue := queue st; next_id := next_id st;
            cache_project := cache_project st; cache_error := cache_error st |}).

(** [memcache.set(key, db.model_to_protobuf(error))] *)
Definition memcache_set (k : string) (e : Error) : DB unit :=
  modify (λ st, {| projects := projects st; errors := errors st; instances := instances st;
                   queue := queue st; next_id := next_id st;
                   cache_project := cache_project st;
                   cache_error := <[k := e]> (cache_error st) |}).

(** [memcache.delete(key)] *)
Definition memcache_delete (k : string) : DB unit :=
  modify (λ st, {| projects := projects st; errors := errors st; instances := instances st;
                   queue := queue st; next_id := next_id st;
                   cache_project := cache_project st;
                   cache_error := delete k (cache_error st) |}).

Definition queue_put (payload : string) : DB nat :=
  k ← allocate_id;
  _ ← modify (λ st, {| projects := projects st; errors := errors st; instances := instances st;
                       queue := <[k := payload]> (queue st); next_id := next_id st;
                       cache_project := cache_project st; cache_error := cache_error st |});
  mret k.

Definition queue_delete (k : nat) : DB unit :=
  modify (λ st, {| projects := projects st; errors := errors st; instances := instances st;
                   queue := delete k (queue st); next_id := next_id st;
                   cache_project := cache_project st; cache_error := cache_error st |}).

(** *** Ordering *)

(** [x] is put in front of the first element whose key is no larger, so
    that equal keys keep the order the elements came in. *)
Fixpoint insert_desc {A} (f : A → Z) (x : A) (l : list A) : list A :=
  match l with
  | [] => [x]
  | y :: l' => if bool_decide (f y ≤ f x) then x :: y :: l' else y :: insert_desc f x l'
  end.

(** [.order('-prop')] of a query and [sorted(l, key = f, reverse = True)]:
    descending, and stable as [sorted] is.  For a query the order of
    the list stands for the order the datastore gives to entities that
    tie, which only the statements that name no order among ties rely
    on. *)
Definition sort_desc {A} (f : A → Z) (l : list A) : list A :=
  foldr (insert_desc f) [] l.

(** ** The server *)

(** What the server takes from outside [server.py]. *)
Class Externals := {
  (** [backtrace.normalizeBacktrace] *)
  normalizeBacktrace : string → string;
  (** [hashlib.md5(data).hexdigest()] *)
  md5_hexdigest : string → string;
  (** [json.dumps] on a report's context *)
  json_dumps : gmap string json → string;
  (** [json.loads] on a queued payload; [None] when it raises *)
  json_loads : string → option Report.t;
  (** [CONFIG['secretKey']] *)
  SECRET_KEY : string;
  (** [int(s)] for a text that is not a run of ASCII digits, or a very
      long one: what it accepts of signs, blanks and the digits and
      blanks of other scripts is the interpreter's; [None] is
      [ValueError] *)
  int_other : string → option Z;
  (** [s.split()] for a text with characters outside printable ASCII,
      where the interpreter's table of whitespace decides *)
  split_other : string → list string;
  (** the least and the greatest timestamp that
      [datetime.fromtimestamp] accepts on the platform *)
  timestamp_min : Z;
  timestamp_max : Z;
  (** the exception it raises for a timestamp outside, [ValueError] or
      [OverflowError] by interpreter and platform *)
  timestamp_error : Z → exn;
  (** the exception [Query.fetch] raises for a negative offset: the
      datastore's [BadArgumentError], or [ValueError] in early versions
      of the library *)
  fetch_error : exn
}.

(** [datetime.min] and [datetime.max], the first second of year 1 and
    the last of year 9999, in seconds from 1970. *)
Definition datetime_min : Z := -62135596800.
Definition datetime_max : Z := 253402300799.

(** The largest number of days of a [timedelta]. *)
Definition timedelta_max_days : Z := 999999999.

Definition INSTANCE_FILTERS : list string := ["environment"; "server"; "affectedUser"].

Definition INTEGER_FILTERS : list string := ["affectedUser"].

(** [str(s)] on a unicode text: the text when it is ASCII, else a
    [UnicodeEncodeError]. *)
Definition str_of_unicode (s : string) : outcome string :=
  if Py.isascii s then Returns s else Raises ValueError.

(** A window of [m] minutes before [now] is in range: [m] minutes make
    a [timedelta], and the time that long before [now] is a
    [datetime]. *)
Definition window_in_range (now m : Z) : Prop :=
  - timedelta_max_days ≤ m `div` 1440 ≤ timedelta_max_days
  ∧ datetime_min ≤ now - 60 * m ≤ datetime_max.

#[global] Instance window_in_range_dec now m : Decision (window_in_range now m).
Proof. unfold window_in_range. apply _. Defined.

(** [datetime.now() - timedelta(minutes = m)] *)
Definition minutes_before (now m : Z) : outcome Z :=
  if bool_decide (window_in_range now m) then Returns (now - 60 * m)
  else Raises OverflowError.

Section Conversions.
Context `{Externals}.

(** [int(s)] on a text: a run of ASCII digits, if not longer than
    [Py.numeral] takes, has its decimal value, any other text what the
    interpreter makes of it. *)
Definition int_of_str (s : string) : option Z :=
  match Py.numeral s with
  | Some n => Some n
  | None => int_other s
  end.

(** [s.split()] on a text: a text of printable ASCII is cut at its
    spaces, any other text as the interpreter cuts it. *)
Definition str_split (s : string) : list string :=
  if Py.plain s then Py.split s else split_other s.

(** [int(v)] on a decoded JSON value. *)
Definition int_of_json (v : json) : outcome Z :=
  match v with
  | JInt n => Returns n
  | JBool b => Returns (if b then 1 else 0)
  | JStr s => match int_of_str s with
              | Some n => Returns n
              | None => Raises ValueError
              end
  | JNull | JCompound => Raises TypeError
  end.

(** [datetime.fromtimestamp(n)] on an integer. *)
Definition fromtimestamp_int (n : Z) : outcome Z :=
  if bool_decide (timestamp_min ≤ n ≤ timestamp_max) then Returns n
  else Raises (timestamp_error n).

(** [datetime.fromtimestamp(v)] *)
Definition fromtimestamp (v : json) : outcome Z :=
  match v with
  | JInt n => fromtimestamp_int n
  | JBool b => fromtimestamp_int (if b then 1 else 0)
  | JNull | JStr _ | JCompound => Raises TypeError
  end.

End Conversions.

(** The value the datastore compares in a filter on property [name]. *)
Definition instance_property (name : string) (i : Instance) : json :=
  if bool_decide (name = "environment") then JStr (LoggedErrorInstanceV2.environment i)
  else if bool_decide (name = "server") then JStr (LoggedErrorInstanceV2.server i)
  else if bool_decide (name = "affectedUser") then
    match LoggedErrorInstanceV2.affectedUser i with
    | Some n => JInt n
    | None => JNull
    end
  else JNull.

Section Server.
Context `{Externals}.

Definition generateHash (exceptionType backtraceText : string) : string :=
  md5_hexdigest (exceptionType +:+ normalizeBacktrace backtraceText).

Definition filterData (dataSet : list Instance) (key value : string) : DB (list Instance) :=
  if bool_decide (key ∈ INTEGER_FILTERS) then
    match int_of_str value with
    | Some n => mret (filter (λ i, instance_property key i = JInt n) dataSet)
    | None => raise ValueError
    end
  else mret (filter (λ i, instance_property key i = JStr value) dataSet).

Definition getProject (name : string) : DB string :=
  serialized ← gets (λ st, bool_decide (name ∈ cache_project st));
  if (serialized : bool) then lift (Returns name) else get_or_insert name.

(** The loop of [getInstances] over [filters.items()].  The keys a
    dictionary yields outside [INSTANCE_FILTERS] are skipped, each key
    comes once and filters commute, so the keys are visited in the
    order of [INSTANCE_FILTERS]. *)
Fixpoint apply_filters (keys : list string) (filters : gmap string string)
    (query : list Instance) : DB (list Instance) :=
  match keys with
  | [] => mret query
  | key :: keys' =>
      match filters !! key with
      | Some value => query' ← filterData query key value; apply_filters keys' filters query'
      | None => apply_filters keys' filters query
      end
  end.

Definition getInstances (filters : gmap string string) (parent : option nat)
    : DB (list Instance) :=
  query ← gets instances;
  let query := match parent with
               | Some k => filter (λ i, LoggedErrorInstanceV2.parent_key i = k) query
               | None => query
               end in
  query ← (if bool_decide (filters = ∅) then mret query
           else apply_filters INSTANCE_FILTERS filters query);
  mret (sort_desc LoggedErrorInstanceV2.date query).

(** The dictionary [filterErrors] yields for [error] when [instances],
    the bucket [instanceMap[error.key()]], starts with [first]. *)
Definition errorDict (error : Error) (first : Instance) (instances : list Instance) : Error :=
  {| LoggedErrorV2.key := LoggedErrorV2.key error;
     LoggedErrorV2.parent_key := LoggedErrorV2.parent_key error;
     LoggedErrorV2.backtrace := LoggedErrorV2.backtrace error;
     LoggedErrorV2.type := LoggedErrorV2.type error;
     LoggedErrorV2.hash := LoggedErrorV2.hash error;
     LoggedErrorV2.active := LoggedErrorV2.active error;
     LoggedErrorV2.count := Z.of_nat (length instances);
     LoggedErrorV2.level := LoggedErrorV2.level error;
     LoggedErrorV2.firstOccurrence := LoggedErrorV2.firstOccurrence error;
     LoggedErrorV2.lastOccurrence :=
       LoggedErrorInstanceV2.date (hd first (sort_desc LoggedErrorInstanceV2.date instances));
     LoggedErrorV2.lastMessage := LoggedErrorV2.lastMessage error;
     LoggedErrorV2.environments :=
       remove_dups (LoggedErrorInstanceV2.environment <$> instances);
     LoggedErrorV2.servers :=
       remove_dups (LoggedErrorInstanceV2.server <$> instances) |}.

(** Everything the generator [filterErrors] yields, in order.
    [instanceMap[k]] is the list of the fetched instances whose parent
    is [k], in the order they were fetched.  A Python [set] has no
    order of its own; the lists made from the two sets are given in
    order of first appearance. *)
Definition filterErrors (errors : list Error) (instanceFilters : gmap string string)
    : DB (list Error) :=
  fetched ← getInstances instanceFilters None;
  let instanceMap (k : nat) :=
    filter (λ i, LoggedErrorInstanceV2.parent_key i = k) fetched in
  mret (omap (λ error,
                match instanceMap (LoggedErrorV2.key error) with
                | [] => None
                | (first :: _) as instances => Some (errorDict error first instances)
                end) errors).

(** [itertools.islice] pulls nothing from the generator when it has
    nothing to skip and nothing to take: the body of [filterErrors]
    does not run then. *)
Definition getErrors (filters : gmap string string) (limit offset : nat) : DB (list Error) :=
  project ← match filters !! "project" with
            | Some value => p ← getProject value; mret (Some p)
            | None => mret None
            end;
  let instanceFilters := filter (λ kv, kv.1 ∈ INSTANCE_FILTERS) filters in
  errors ← gets errors;
  let errors := filter (λ e, LoggedErrorV2.active e = true) errors in
  let errors := match project with
                | Some p => filter (λ e, LoggedErrorV2.parent_key e = p) errors
                | None => errors
                end in
  let errors := sort_desc LoggedErrorV2.lastOccurrence errors in
  if bool_decide (instanceFilters = ∅) then mret (take limit (drop offset errors))
  else if bool_decide (limit = 0 ∧ offset = 0)%nat then mret []
  else
    views ← filterErrors errors instanceFilters;
    mret (take limit (drop offset views)).

(** The query and the loop of [getAggregatedError]: the first active
    error under [project] with this hash whose normalized backtrace is
    that of the report. *)
Definition find_possibility (project errorHash backtraceText : string)
    (stored : list Error) : option Error :=
  List.find
    (λ possibility,
       bool_decide (normalizeBacktrace (LoggedErrorV2.backtrace possibility)
                    = normalizeBacktrace backtraceText))
    (filter (λ e, LoggedErrorV2.parent_key e = project
                  ∧ LoggedErrorV2.hash e = errorHash
                  ∧ LoggedErrorV2.active e = true) stored).

(** The assignments [getAggregatedError] makes to the error it found. *)
Definition update_error (error : Error) (environment server backtraceText message : string)
    (timestamp : Z) : Error :=
  let newer := bool_decide (LoggedErrorV2.lastOccurrence error < timestamp) in
  {| LoggedErrorV2.key := LoggedErrorV2.key error;
     LoggedErrorV2.parent_key := LoggedErrorV2.parent_key error;
     LoggedErrorV2.backtrace :=
       if newer then backtraceText else LoggedErrorV2.backtrace error;
     LoggedErrorV2.type := LoggedErrorV2.type error;
     LoggedErrorV2.hash := LoggedErrorV2.hash error;
     LoggedErrorV2.active := LoggedErrorV2.active error;
     LoggedErrorV2.count := LoggedErrorV2.count error + 1;
     LoggedErrorV2.level := LoggedErrorV2.level error;
     LoggedErrorV2.firstOccurrence := Z.min (LoggedErrorV2.firstOccurrence error) timestamp;
     LoggedErrorV2.lastOccurrence :=
       if newer then timestamp else LoggedErrorV2.lastOccurrence error;
     LoggedErrorV2.lastMessage :=
       if newer then Py.slice_to 300 message else LoggedErrorV2.lastMessage error;
     LoggedErrorV2.environments :=
       if bool_decide (environment ∈ LoggedErrorV2.environments error)
       then LoggedErrorV2.environments error
       else LoggedErrorV2.environments error ++ [environment];
     LoggedErrorV2.servers :=
       if bool_decide (server ∈ LoggedErrorV2.servers error)
       then LoggedErrorV2.servers error
       else LoggedErrorV2.servers error ++ [server] |}.

(** The error [getAggregatedError] goes on with: the one cached under
    [key] if there is one, else the one found in the store. *)
Definition lookup_error (key project errorHash backtraceText : string) (st : State)
    : option Error :=
  match cache_error st !! key with
  | Some cached => Some cached
  | None => find_possibility project errorHash backtraceText (errors st)
  end.

(** [project_str] is the text that ['%s' % project] gives for the
    [Project] instance during this call.  [db.Model] defines neither
    [__str__] nor [__repr__], so this is Python's default text for an
    object ([<module.Project object at 0x...>]); it is an input of the
    call. *)
Definition getAggregatedError (project_str : string)
    (project environment server backtraceText errorHash message : string)
    (timestamp : Z) : DB (option Error) :=
  project ← getProject project;
  let key := project_str +:+ "|" +:+ errorHash in
  error ← gets (lookup_error key project errorHash backtraceText);
  match error with
  | Some error =>
      let error := update_error error environment server backtraceText message timestamp in
      _ ← db_put_error error;
      _ ← memcache_set key error;
      mret (Some error)
  | None => mret None
  end.

(** The error [putException] creates when none was found. *)
Definition new_error (key : nat) (parent : string)
    (environment server backtraceText exceptionType errorHash message : string)
    (timestamp : Z) : Error :=
  let exceptionType := Py.replace_newline exceptionType in
  let exceptionType :=
    if bool_decide (500 < String.length exceptionType)%nat
    then Py.slice_to 500 exceptionType else exceptionType in
  {| LoggedErrorV2.key := key;
     LoggedErrorV2.parent_key := parent;
     LoggedErrorV2.backtrace := backtraceText;
     LoggedErrorV2.type := Py.replace_newline exceptionType;
     LoggedErrorV2.hash := errorHash;
     LoggedErrorV2.active := true;
     LoggedErrorV2.count := 1;
     LoggedErrorV2.level := Level.ERROR;
     LoggedErrorV2.firstOccurrence := timestamp;
     LoggedErrorV2.lastOccurrence := timestamp;
     LoggedErrorV2.lastMessage := Py.slice_to 300 message;
     LoggedErrorV2.environments := [environment];
     LoggedErrorV2.servers := [server] |}.

(** The [userId] of a report's context, when the context is a
    non-empty dictionary that has one. *)
Definition context_userId (context : option (gmap string json)) : option json :=
  match context with
  | Some context => if bool_decide (context = ∅) then None else context !! "userId"
  | None => None
  end.

(** The instance [putException] stores under [error]. *)
Definition new_instance (key : nat) (error : Error) (environment server message : string)
    (timestamp : Z) (logMessage : option string) (context : option (gmap string json))
    (affectedUser : option Z) : Instance :=
  {| LoggedErrorInstanceV2.key := key;
     LoggedErrorInstanceV2.parent_key := LoggedErrorV2.key error;
     LoggedErrorInstanceV2.project_key := LoggedErrorV2.parent_key error;
     LoggedErrorInstanceV2.environment := environment;
     LoggedErrorInstanceV2.date := timestamp;
     LoggedErrorInstanceV2.message := message;
     LoggedErrorInstanceV2.server := server;
     LoggedErrorInstanceV2.logMessage := logMessage;
     LoggedErrorInstanceV2.context :=
       match context with
       | Some context => if bool_decide (context = ∅) then None else Some (json_dumps context)
       | None => None
       end;
     LoggedErrorInstanceV2.affectedUser := affectedUser |}.

Definition putException (project_str : string) (exception : Report.t) : DB unit :=
  backtraceText ← lift (getitem "backtrace" (Report.backtrace exception));
  environment ← lift (getitem "environment" (Report.environment exception));
  message ← lift (getitem "message" (Report.message exception));
  let message := default "" message in
  project ← lift (getitem "project" (Report.project exception));
  server ← lift (getitem "serverName" (Report.serverName exception));
  timestamp ← lift (getitem "timestamp" (Report.timestamp exception));
  timestamp ← lift (fromtimestamp timestamp);
  exceptionType ← lift (getitem "type" (Report.type exception));
  let logMessage := Report.logMessage exception in
  let context := Report.context exception in
  let errorHash := generateHash exceptionType backtraceText in
  error ← getAggregatedError project_str project environment server backtraceText
            errorHash message timestamp;
  error ← match error with
          | Some error => mret error
          | None =>
              parent ← getProject project;
              environment_str ← lift (str_of_unicode environment);
              key ← allocate_id;
              let error := new_error key parent environment_str server backtraceText
                             exceptionType errorHash message timestamp in
              _ ← db_put_error error;
              mret error
          end;
  affectedUser ←
    match context_userId context with
    | Some userId => n ← lift (int_of_json userId); mret (Some n)
    | None => mret None
    end;
  key ← allocate_id;
  db_put_instance
    (new_instance key error environment server message timestamp logMessage context
       affectedUser).

(** *** Request handlers *)

(** What a handler leaves in [self.response]. *)
Record Response := mkResponse { status : nat; body : string }.

(** [ReportPage.post]; the task handed to the task queue is the key of
    the new [Queue] entity. *)
Definition ReportPage_post (key body : string) : DB (Response * option nat) :=
  if bool_decide (key ≠ SECRET_KEY) then mret (mkResponse 403 "", None)
  else
    task ← queue_put body;
    mret (mkResponse 200 "", Some task).

(** The loop of [StatPage.get] over the requested windows.
    [Query.count()] counts up to its default limit of 1000. *)
Fixpoint stat_counts (project : option string) (now : Z) (minutes : list string)
    : DB (list nat) :=
  match minutes with
  | [] => mret []
  | m :: minutes' =>
      query ← gets instances;
      let query := match project with
                   | Some p => filter (λ i, LoggedErrorInstanceV2.project_key i = p) query
                   | None => query
                   end in
      m ← lift (int_of_json (JStr m));
      since ← lift (minutes_before now m);
      let count :=
        Nat.min (length (filter (λ i, since ≤ LoggedErrorInstanceV2.date i) query))
                1000 in
      counts ← stat_counts project now minutes';
      mret (count :: counts)
  end.

(** [StatPage.get]; [now] is [datetime.now()], in seconds, taken to be
    the same for every window of one request.  The branch under
    [if not project] is not taken: a model instance is true. *)
Definition StatPage_get (key project minutes : string) (now : Z) : DB Response :=
  if bool_decide (key ≠ SECRET_KEY) then mret (mkResponse 403 "")
  else
    project ← (if bool_decide (project = "") then mret None
               else p ← getProject project; mret (Some p));
    counts ← stat_counts project now (str_split minutes);
    mret (mkResponse 200 (Py.join_space (Py.str_of_nat <$> counts))).

(** [ReportWorker.post] for the task with key [key]. *)
Definition ReportWorker_post (project_str : string) (key : nat) : DB unit :=
  task ← gets (λ st, queue st !! key);
  match task with
  | None => mret tt
  | Some payload =>
      exception ← match json_loads payload with
                  | Some exception => mret exception
                  | None => raise ValueError
                  end;
      _ ← putException project_str exception;
      queue_delete key
  end.

(** [ResolvePage.doAuthenticatedGet]; [LoggedErrorV2.get] gives [None]
    for a key without entity, and assigning to its attribute raises. *)
Definition ResolvePage_doAuthenticatedGet (key : nat) : DB Response :=
  error ← gets (λ st, get_error key (errors st));
  match error with
  | None => raise AttributeError
  | Some error =>
      let error :=
        {| LoggedErrorV2.key := LoggedErrorV2.key error;
           LoggedErrorV2.parent_key := LoggedErrorV2.parent_key error;
           LoggedErrorV2.backtrace := LoggedErrorV2.backtrace error;
           LoggedErrorV2.type := LoggedErrorV2.type error;
           LoggedErrorV2.hash := LoggedErrorV2.hash error;
           LoggedErrorV2.active := false;
           LoggedErrorV2.count := LoggedErrorV2.count error;
           LoggedErrorV2.level := LoggedErrorV2.level error;
           LoggedErrorV2.firstOccurrence := LoggedErrorV2.firstOccurrence error;
           LoggedErrorV2.lastOccurrence := LoggedErrorV2.lastOccurrence error;
           LoggedErrorV2.lastMessage := LoggedErrorV2.lastMessage error;
           LoggedErrorV2.environments := LoggedErrorV2.environments error;
           LoggedErrorV2.servers := LoggedErrorV2.servers error |} in
      _ ← db_put_error error;
      let key := LoggedErrorV2.parent_key error +:+ "|" +:+ LoggedErrorV2.hash error in
      _ ← memcache_delete key;
      mret (mkResponse 200 "ok")
  end.

End Server.

(** ** Notions used in the statements *)

(** The values [putException] reads from a report before it touches the
    store: the required keys, with [message] after [or ''] and
    [timestamp] after [datetime.fromtimestamp]. *)
Record Required := mkRequired {
  r_backtrace : string;
  r_environment : string;
  r_message : string;
  r_project : string;
  r_server : string;
  r_timestamp : Z;
  r_type : string
}.

Definition returned {A} (o : outcome A) : option A :=
  match o with
  | Returns a => Some a
  | Raises _ => None
  end.

Section Notions.
Context `{Externals}.

(** [None] when a required key is missing or the timestamp is not a
    number that [datetime.fromtimestamp] accepts. *)
Definition required (exception : Report.t) : option Required :=
  backtraceText ← Report.backtrace exception;
  environment ← Report.environment exception;
  message ← Report.message exception;
  project ← Report.project exception;
  server ← Report.serverName exception;
  timestamp ← Report.timestamp exception;
  timestamp ← returned (fromtimestamp timestamp);
  exceptionType ← Report.type exception;
  Some (mkRequired backtraceText environment (default "" message) project server
          timestamp exceptionType).

(** The affected user of a report: [Some None] without [userId],
    [None] when [int] rejects the [userId]. *)
Definition affected_user (exception : Report.t) : option (option Z) :=
  match context_userId (Report.context exception) with
  | Some userId => Some <$> returned (int_of_json userId)
  | None => Some None
  end.


(** The memcache key [getAggregatedError] uses for a report. *)
Definition cache_key (project_str : string) (q : Required) : string :=
  project_str +:+ "|" +:+ generateHash (r_type q) (r_backtrace q).

(** The error [getAggregatedError] finds for a report in state [st]. *)
Definition found (project_str : string) (q : Required) (st : State) : option Error :=
  lookup_error (cache_key project_str q) (r_project q)
    (generateHash (r_type q) (r_backtrace q)) (r_backtrace q) st.

(** [putException] can write the report's error: it found one to
    update, or the environment is a text that [str()] converts when it
    makes a new one. *)
Definition storable (project_str : string) (q : Required) (st : State) : Prop :=
  is_Some (found project_str q st) ∨ Py.isascii (r_environment q) = true.

#[global] Instance storable_dec project_str q st : Decision (storable project_str q st).
Proof. unfold storable. apply _. Defined.

(** The state in which [putException] gives up a report that is not
    [storable]: [getProject] has run in [getAggregatedError] and again
    for the new error, and [str(environment)] has raised. *)
Definition project_got (q : Required) (st : State) : State :=
  let name := r_project q in
  if bool_decide (name ∈ cache_project st) then st
  else {| projects := {[name]} ∪ ({[name]} ∪ projects st);
          errors := errors st;
          instances := instances st;
          queue := queue st;
          next_id := next_id st;
          cache_project := cache_project st;
          cache_error := cache_error st |}.

(** The error a report's instance is stored under: the one found,
    updated, or a new one. *)
Definition target (project_str : string) (q : Required) (st : State) : Error :=
  match found project_str q st with
  | Some error =>
      update_error error (r_environment q) (r_server q) (r_backtrace q) (r_message q)
        (r_timestamp q)
  | None =>
      new_error (next_id st) (r_project q) (r_environment q) (r_server q) (r_backtrace q)
        (r_type q) (generateHash (r_type q) (r_backtrace q)) (r_message q) (r_timestamp q)
  end.

(** The state in which [putException] has found or created the
    report's error and written it, before it stores the instance. *)
Definition error_stored (project_str : string) (q : Required) (st : State) : State :=
  let hit := found project_str q st in
  let error := target project_str q st in
  let name := r_project q in
  {| projects :=
       if bool_decide (name ∈ cache_project st) then projects st
       else match hit with
            | Some _ => {[name]} ∪ projects st
            | None => {[name]} ∪ ({[name]} ∪ projects st)
            end;
     errors := put_error error (errors st);
     instances := instances st;
     queue := queue st;
     next_id := match hit with Some _ => next_id st | None => S (next_id st) end;
     cache_project := cache_project st;
     cache_error :=
       match hit with
       | Some _ => <[cache_key project_str q := error]> (cache_error st)
       | None => cache_error st
       end |}.

(** The instance stored for a report with affected user [u]. *)
Definition stored_instance (project_str : string) (exception : Report.t) (q : Required)
    (u : option Z) (st : State) : Instance :=
  new_instance (next_id (error_stored project_str q st)) (target project_str q st)
    (r_environment q) (r_server q) (r_message q) (r_timestamp q)
    (Report.logMessage exception) (Report.context exception) u.

(** The state [putException] leaves for a report whose reads all
    succeed. *)
Definition ingested (project_str : string) (exception : Report.t) (q : Required)
    (u : option Z) (st : State) : State :=
  let st1 := error_stored project_str q st in
  {| projects := projects st1;
     errors := errors st1;
     instances := instances st1 ++ [stored_instance project_str exception q u st];
     queue := queue st1;
     next_id := S (next_id st1);
     cache_project := cache_project st1;
     cache_error := cache_error st1 |}.

(** Ingesting a list of reports, one worker call after the other,
    whatever each call's outcome. *)
Definition ingest_all (calls : list (string * Report.t)) (st : State) : State :=
  foldl (λ st call, (putException call.1 call.2 st).2) st calls.

End Notions.

(** The errors [getAggregatedError] queries for a project and a hash. *)
Definition candidate (project errorHash : string) (e : Error) : Prop :=
  LoggedErrorV2.parent_key e = project
  ∧ LoggedErrorV2.hash e = errorHash
  ∧ LoggedErrorV2.active e = true.

#[global] Instance candidate_dec project errorHash e : Decision (candidate project errorHash e).
Proof. unfold candidate. apply _. Defined.

(** The first occurrence of an error is not after its last. *)
Definition occurrences_ordered (e : Error) : Prop :=
  LoggedErrorV2.firstOccurrence e ≤ LoggedErrorV2.lastOccurrence e.

(** ... for every error of the store and every snapshot in memcache. *)
Definition all_ordered (st : State) : Prop :=
  Forall occurrences_ordered (errors st)
  ∧ map_Forall (λ _ e, occurrences_ordered e) (cache_error st).

(** Stored errors are in key order, under keys handed out already. *)
Definition keys_ok (st : State) : Prop :=
  StronglySorted lt (LoggedErrorV2.key <$> errors st)
  ∧ Forall (λ e, (LoggedErrorV2.key e < next_id st)%nat) (errors st).

Section Filters.
Context `{Externals}.

(** An instance passes the occurrence-level filters of a request: it
    has the environment and the server asked for, and its affected user
    is the integer asked for. *)
Definition passes (filters : gmap string string) (i : Instance) : Prop :=
  match filters !! "environment" with
  | Some v => LoggedErrorInstanceV2.environment i = v
  | None => True
  end
  ∧ match filters !! "server" with
    | Some v => LoggedErrorInstanceV2.server i = v
    | None => True
    end
  ∧ match filters !! "affectedUser" with
    | Some v => match int_of_str v with
                | Some n => LoggedErrorInstanceV2.affectedUser i = Some n
                | None => False
                end
    | None => True
    end.

#[global] Instance passes_dec filters i : Decision (passes filters i).
Proof.
  unfold passes.
  destruct (filters !! "environment"), (filters !! "server"),
    (filters !! "affectedUser") as [v|]; try destruct (int_of_str v); apply _.
Defined.

(** An error is listed: it is active and, when the request names a
    project, belongs to it. *)
Definition listed (filters : gmap string string) (e : Error) : Prop :=
  LoggedErrorV2.active e = true
  ∧ match filters !! "project" with
    | Some p => LoggedErrorV2.parent_key e = p
    | None => True
    end.

#[global] Instance listed_dec filters e : Decision (listed filters e).
Proof. unfold listed. destruct (filters !! "project"); apply _. Defined.

(** The stored occurrences of an error that pass the filters. *)
Definition matching (filters : gmap string string) (e : Error) (st : State) : list Instance :=
  filter (λ i, LoggedErrorInstanceV2.parent_key i = LoggedErrorV2.key e ∧ passes filters i)
    (instances st).

End Filters.

(** [view] is the derived view of [e] for the occurrences [hits]: the
    count is their number, the last occurrence their latest date, the
    environments and servers are theirs, each once; the rest is [e]'s. *)
Definition derived_view (e : Error) (hits : list Instance) (view : Error) : Prop :=
  hits ≠ []
  ∧ LoggedErrorV2.count view = Z.of_nat (length hits)
  ∧ (∃ i, i ∈ hits ∧ LoggedErrorInstanceV2.date i = LoggedErrorV2.lastOccurrence view)
  ∧ (∀ i, i ∈ hits → LoggedErrorInstanceV2.date i ≤ LoggedErrorV2.lastOccurrence view)
  ∧ NoDup (LoggedErrorV2.environments view)
  ∧ (∀ x, x ∈ LoggedErrorV2.environments view
          ↔ ∃ i, i ∈ hits ∧ LoggedErrorInstanceV2.environment i = x)
  ∧ NoDup (LoggedErrorV2.servers view)
  ∧ (∀ x, x ∈ LoggedErrorV2.servers view
          ↔ ∃ i, i ∈ hits ∧ LoggedErrorInstanceV2.server i = x)
  ∧ LoggedErrorV2.key view = LoggedErrorV2.key e
  ∧ LoggedErrorV2.parent_key view = LoggedErrorV2.parent_key e
  ∧ LoggedErrorV2.backtrace view = LoggedErrorV2.backtrace e
  ∧ LoggedErrorV2.type view = LoggedErrorV2.type e
  ∧ LoggedErrorV2.hash view = LoggedErrorV2.hash e
  ∧ LoggedErrorV2.active view = LoggedErrorV2.active e
  ∧ LoggedErrorV2.level view = LoggedErrorV2.level e
  ∧ LoggedErrorV2.firstOccurrence view = LoggedErrorV2.firstOccurrence e
  ∧ LoggedErrorV2.lastMessage view = LoggedErrorV2.lastMessage e.

(** ** A concrete instance, for running the model *)

Module Sample.

(** A report with every required key. *)
Definition report (project type backtrace environment server message : string)
    (timestamp : Z) : Report.t :=
  {| Report.backtrace := Some backtrace;
     Report.environment := Some environment;
     Report.message := Some (Some message);
     Report.project := Some project;
     Report.serverName := Some server;
     Report.timestamp := Some (JInt timestamp);
     Report.type := Some type;
     Report.logMessage := None;
     Report.context := None |}.

Definition payload_text : string :=
  "{project: P, type: NullPointer, backtrace: at f(a.py), environment: prod, serverName: web1, message: boom, timestamp: 100}".

Definition npe (environment : string) (timestamp : Z) : Report.t :=
  report "P" "NullPointer" "at f(a.py)" environment "web1" "boom" timestamp.

(** Stand-ins for the external functions: backtraces are already in
    normal form, the digest is the text itself, the decoder knows one
    payload, [int()] reads signed decimal texts with blanks around
    them, [split()] cuts at the whitespace below 256, the platform
    takes the timestamps of the years 1 to 9999, and [fetch] refuses a
    negative offset with [BadArgumentError]. *)
Definition externals : Externals :=
  {| normalizeBacktrace := λ s, s;
     md5_hexdigest := λ s, s;
     json_dumps := λ _, "{}";
     json_loads := λ s, if bool_decide (s = payload_text) then Some (npe "prod" 100) else None;
     SECRET_KEY := "secret";
     int_other := Py.signed_numeral;
     split_other := Py.split;
     timestamp_min := datetime_min;
     timestamp_max := datetime_max;
     timestamp_error := λ _, ValueError;
     fetch_error := BadArgumentError |}.

(** The text Python prints for one [Project] instance. *)
Definition project_str : string := "<server.Project object at 0x7f3a5c0b1d50>".

(** What [required] reads from [npe environment timestamp]. *)
Definition npe_required (environment : string) (timestamp : Z) : Required :=
  mkRequired "at f(a.py)" environment "boom" "P" "web1" timestamp "NullPointer".

(** The report [npe "prod" 100] with a context that has a [userId]. *)
Definition npe_of_user (userId : json) : Report.t :=
  {| Report.backtrace := Some "at f(a.py)";
     Report.environment := Some "prod";
     Report.message := Some (Some "boom");
     Report.project := Some "P";
     Report.serverName := Some "web1";
     Report.timestamp := Some (JInt 100);
     Report.type := Some "NullPointer";
     Report.logMessage := None;
     Report.context := Some {[ "userId" := userId ]} |}.


(** Two reports whose type and normalized backtrace differ but give
    the same bytes to the digest, hence the same hash. *)
Definition split_early : Report.t :=
  report "P" "Null" "Pointer at f(a.py)" "prod" "web1" "boom" 100.

Definition split_late : Report.t :=
  report "P" "NullPointer" " at f(a.py)" "prod" "web1" "boom" 200.



(** The store after [npe "prod" 100] and [npe "prod" 200]: one error
    with count 2, stored and cached. *)
Definition twice : State :=
  ingest_all (H := externals)
    [(project_str, npe "prod" 100); (project_str, npe "prod" 200)] empty_state.

(** The error held by [twice]. *)
Definition twice_error : Error :=
  {| LoggedErrorV2.key := 0;
     LoggedErrorV2.parent_key := "P";
     LoggedErrorV2.backtrace := "at f(a.py)";
     LoggedErrorV2.type := "NullPointer";
     LoggedErrorV2.hash := "NullPointerat f(a.py)";
     LoggedErrorV2.active := true;
     LoggedErrorV2.count := 2;
     LoggedErrorV2.level := 30;
     LoggedErrorV2.firstOccurrence := 100;
     LoggedErrorV2.lastOccurrence := 200;
     LoggedErrorV2.lastMessage := "boom";
     LoggedErrorV2.environments := ["prod"];
     LoggedErrorV2.servers := ["web1"] |}.

(** The store after the three reports of the specification's example:
    environments prod, prod, staging at 100, 200, 150. *)
Definition thrice : State :=
  ingest_all (H := externals)
    [(project_str, npe "prod" 100); (project_str, npe "prod" 200);
     (project_str, npe "staging" 150)] empty_state.


(** An occurrence of error 0 of project P at [date]. *)
Definition occurrence (key : nat) (date : Z) : Instance :=
  {| LoggedErrorInstanceV2.key := key;
     LoggedErrorInstanceV2.parent_key := 0;
     LoggedErrorInstanceV2.project_key := "P";
     LoggedErrorInstanceV2.environment := "prod";
     LoggedErrorInstanceV2.date := date;
     LoggedErrorInstanceV2.message := "boom";
     LoggedErrorInstanceV2.server := "web1";
     LoggedErrorInstanceV2.logMessage := None;
     LoggedErrorInstanceV2.context := None;
     LoggedErrorInstanceV2.affectedUser := None |}.

(** A store whose occurrences are 5, 30 and 90 minutes before the
    time 10000. *)
Definition three_occurrences : State :=
  {| projects := {["P"]}; errors := []; queue := ∅; next_id := 4;
     instances := [occurrence 1 9700; occurrence 2 8200; occurrence 3 4600];
     cache_project := ∅; cache_error := ∅ |}.

(** The empty store with one queued payload, under key 0. *)
Definition queued : State :=
  {| projects := ∅; errors := []; instances := []; queue := {[ 0%nat := payload_text ]};
     next_id := 1; cache_project := ∅; cache_error := ∅ |}.

End Sample.

(** ** The remaining pages *)

(** [getFilters]: [params] is [request.params.items()], every pair of
    the query string in order; a later pair replaces an earlier one with
    the same key. *)
Definition getFilters (params : list (string * string)) : gmap string string :=
  foldl (λ filters kv,
           if bool_decide (kv.1 ∈ INSTANCE_FILTERS ∨ kv.1 = "project")
           then <[kv.1 := kv.2]> filters else filters)
        ∅ params.

(** [request.get(name, default)]: the first value given for [name]. *)
Definition request_get (name : string) (params : list (string * string)) : option string :=
  snd <$> List.find (λ kv, bool_decide (kv.1 = name)) params.

(** What [ListPage] hands to its template, without the constants. *)
Record ListContext := mkListContext {
  list_filters : gmap string string;
  list_errors : list Error;
  list_hasMore : bool;
  list_nextPage : Z
}.

Section Pages.
Context `{Externals}.

(** [AuthPage.get]: the page runs for a signed-in user, or for anyone
    when [REQUIRE_AUTH] is off; otherwise the request is redirected to
    the login page ([None]). *)
Definition AuthPage_get {A} (user : option string) (REQUIRE_AUTH : bool)
    (doAuthenticatedGet : DB A) : DB (option A) :=
  if bool_decide (is_Some user) || negb REQUIRE_AUTH
  then a ← doAuthenticatedGet; mret (Some a)
  else mret None.

(** [ListPage.doAuthenticatedGet].  [int] of the page parameter comes
    before the query.  A negative page gives a negative offset, which
    [fetch] and [islice] refuse once [getErrors] has gone through the
    filters, [fetch] with the exception of the datastore library and
    [islice] with [ValueError]: what [getErrors] has done by then is
    what it does for limit 0 and offset 0. *)
Definition ListPage_doAuthenticatedGet (params : list (string * string)) : DB ListContext :=
  let filters := getFilters params in
  page ← match request_get "page" params with
         | Some text => lift (int_of_json (JStr text))
         | None => mret 0
         end;
  errors ← (if bool_decide (page < 0)
            then _ ← getErrors filters 0 0;
                 raise (if bool_decide
                             (filter (λ kv : string * string, kv.1 ∈ INSTANCE_FILTERS) filters
                              = ∅)
                        then fetch_error else ValueError)
            else getErrors filters 51 (Z.to_nat page * 50));
  let hasMore := bool_decide (length errors = 51%nat) in
  mret (mkListContext filters (take 50 errors) hasMore (page + 1)).

(** [ViewPage.doAuthenticatedGet]: the error and its instances for the
    template.  The title is made from the error first, which raises
    when [LoggedErrorV2.get] found none. *)
Definition ViewPage_doAuthenticatedGet (key : nat) (params : list (string * string))
    : DB (Error * list Instance) :=
  error ← gets (λ st, get_error key (errors st));
  let filters := getFilters params in
  match error with
  | None => raise AttributeError
  | Some error =>
      instances ← getInstances filters (Some (LoggedErrorV2.key error));
      mret (error, take 100 instances)
  end.

(** [ClearDatabasePage.doAuthenticatedGet]; [is_admin] is
    [users.is_current_user_admin()]. *)
Definition ClearDatabasePage_doAuthenticatedGet (is_admin : bool) : DB Response :=
  if is_admin then
    _ ← modify (λ st, {| projects := projects st; errors := []; instances := [];
                         queue := queue st; next_id := next_id st;
                         cache_project := cache_project st;
                         cache_error := cache_error st |});
    mret (mkResponse 200 "Done")
  else mret (mkResponse 302 "").

(** A request to the application, with what the environment adds to it:
    the text of the [Project] instance for the worker, the time for the
    statistics, whether the user is an administrator for the clearing.
    The four pages under [AuthPage] are taken for a user who may see
    them; a redirected request changes nothing. *)
Inductive request :=
| PostReport (key body : string)
| RunWorker (project_str : string) (task : nat)
| GetStats (key project minutes : string) (now : Z)
| GetList (params : list (string * string))
| GetView (key : nat) (params : list (string * string))
| GetResolve (key : nat)
| GetClear (is_admin : bool).

(** The state a request leaves, whatever it answers. *)
Definition serve (r : request) (st : State) : State :=
  match r with
  | PostReport key body => (ReportPage_post key body st).2
  | RunWorker project_str task => (ReportWorker_post project_str task st).2
  | GetStats key project minutes now => (StatPage_get key project minutes now st).2
  | GetList params => (ListPage_doAuthenticatedGet params st).2
  | GetView key params => (ViewPage_doAuthenticatedGet key params st).2
  | GetResolve key => (ResolvePage_doAuthenticatedGet key st).2
  | GetClear is_admin => (ClearDatabasePage_doAuthenticatedGet is_admin st).2
  end.

Definition serve_all (rs : list request) (st : State) : State := foldl (λ st r, serve r st) st rs.

End Pages.

(** ** More notions used in the statements *)

(** [P] holds of every stored error and every cached snapshot. *)
Definition everywhere (P : Error → Prop) (st : State) : Prop :=
  Forall P (errors st) ∧ map_Forall (λ _ e, P e) (cache_error st).

(** The texts of an error are within the lengths [putException] cuts
    them to, and the type has no line break. *)
Definition texts_bounded (e : Error) : Prop :=
  (String.length (LoggedErrorV2.lastMessage e) ≤ 300)%nat
  ∧ (String.length (LoggedErrorV2.type e) ≤ 500)%nat
  ∧ "010"%char ∉ list_ascii_of_string (LoggedErrorV2.type e).

(** An error counts at least one occurrence and lists each environment
    and each server once. *)
Definition sets_proper (e : Error) : Prop :=
  1 ≤ LoggedErrorV2.count e
  ∧ LoggedErrorV2.environments e ≠ []
  ∧ LoggedErrorV2.servers e ≠ []
  ∧ NoDup (LoggedErrorV2.environments e)
  ∧ NoDup (LoggedErrorV2.servers e).

(** Stored keys are in order and, like the keys of the cached
    snapshots, were handed out before. *)
Definition ids_ok (st : State) : Prop :=
  keys_ok st
  ∧ map_Forall (λ _ e, (LoggedErrorV2.key e < next_id st)%nat) (cache_error st).

(** The state with the [Project] entity [name] added. *)
Definition with_project (name : string) (st : State) : State :=
  {| projects := {[name]} ∪ projects st; errors := errors st; instances := instances st;
     queue := queue st; next_id := next_id st; cache_project := cache_project st;
     cache_error := cache_error st |}.

(** [st'] differs from [st] at most by [Project] entities added. *)
Definition only_projects_added (st st' : State) : Prop :=
  projects st ⊆ projects st'
  ∧ errors st' = errors st
  ∧ instances st' = instances st
  ∧ queue st' = queue st
  ∧ next_id st' = next_id st
  ∧ cache_project st' = cache_project st
  ∧ cache_error st' = cache_error st.

(** [e'] is [e] but for the active flag. *)
Definition same_but_active (e e' : Error) : Prop :=
  LoggedErrorV2.key e' = LoggedErrorV2.key e
  ∧ LoggedErrorV2.parent_key e' = LoggedErrorV2.parent_key e
  ∧ LoggedErrorV2.backtrace e' = LoggedErrorV2.backtrace e
  ∧ LoggedErrorV2.type e' = LoggedErrorV2.type e
  ∧ LoggedErrorV2.hash e' = LoggedErrorV2.hash e
  ∧ LoggedErrorV2.count e' = LoggedErrorV2.count e
  ∧ LoggedErrorV2.level e' = LoggedErrorV2.level e
  ∧ LoggedErrorV2.firstOccurrence e' = LoggedErrorV2.firstOccurrence e
  ∧ LoggedErrorV2.lastOccurrence e' = LoggedErrorV2.lastOccurrence e
  ∧ LoggedErrorV2.lastMessage e' = LoggedErrorV2.lastMessage e
  ∧ LoggedErrorV2.environments e' = LoggedErrorV2.environments e
  ∧ LoggedErrorV2.servers e' = LoggedErrorV2.servers e.

Section WholeListing.
Context `{Externals}.

(** The whole sequence a call of [getErrors] pages through: the listed
    errors, latest first, as they are when no occurrence-level filter is
    given, else the views [filterErrors] yields for them. *)
Definition full_listing (filters : gmap string string) (st : State) : list Error :=
  let ordered :=
    sort_desc LoggedErrorV2.lastOccurrence (filter (listed filters) (errors st)) in
  let fetched :=
    sort_desc LoggedErrorInstanceV2.date (filter (passes filters) (instances st)) in
  if bool_decide (filter (λ kv : string * string, kv.1 ∈ INSTANCE_FILTERS) filters = ∅)
  then ordered
  else omap (λ error,
               match filter (λ i, LoggedErrorInstanceV2.parent_key i = LoggedErrorV2.key error)
                       fetched with
               | [] => None
               | (first :: _) as bucket => Some (errorDict error first bucket)
               end) ordered.

(** The number of entries of the whole listing for [filters]: the
    errors listed, and with an occurrence-level filter those of them
    that have an occurrence passing the filters. *)
Definition listed_count (filters : gmap string string) (st : State) : nat :=
  if bool_decide (filter (λ kv : string * string, kv.1 ∈ INSTANCE_FILTERS) filters = ∅)
  then length (filter (listed filters) (errors st))
  else length (filter (λ e, listed filters e ∧ matching filters e st ≠ []) (errors st)).

End WholeListing.

(** ** More sample inputs *)

Module Traffic.
Import Sample.

(** A posted report, its delivery to the worker, three reads, a
    resolving and a clearing refused to a user who is no
    administrator. *)
Definition requests : list request :=
  [ PostReport "secret" payload_text;
    RunWorker project_str 0;
    GetList [("project", "Q")];
    GetView 1 [("environment", "prod")];
    GetStats "secret" "P" "10 60" 10000;
    GetResolve 1;
    GetClear false ].



(** The store after [split_early] and [split_late]: two errors of one
    hash, under the keys 0 and 2. *)
Definition two_errors : State :=
  ingest_all (H := externals)
    [(project_str, split_early); (project_str, split_late)] empty_state.

(** The first error held by [two_errors]. *)
Definition early_error : Error :=
  {| LoggedErrorV2.key := 0;
     LoggedErrorV2.parent_key := "P";
     LoggedErrorV2.backtrace := "Pointer at f(a.py)";
     LoggedErrorV2.type := "Null";
     LoggedErrorV2.hash := "NullPointer at f(a.py)";
     LoggedErrorV2.active := true;
     LoggedErrorV2.count := 1;
     LoggedErrorV2.level := 30;
     LoggedErrorV2.firstOccurrence := 100;
     LoggedErrorV2.lastOccurrence := 100;
     LoggedErrorV2.lastMessage := "boom";
     LoggedErrorV2.environments := ["prod"];
     LoggedErrorV2.servers := ["web1"] |}.

(** The second error held by [two_errors]. *)
Definition late_error : Error :=
  {| LoggedErrorV2.key := 2;
     LoggedErrorV2.parent_key := "P";
     LoggedErrorV2.backtrace := " at f(a.py)";
     LoggedErrorV2.type := "NullPointer";
     LoggedErrorV2.hash := "NullPointer at f(a.py)";
     LoggedErrorV2.active := true;
     LoggedErrorV2.count := 1;
     LoggedErrorV2.level := 30;
     LoggedErrorV2.firstOccurrence := 200;
     LoggedErrorV2.lastOccurrence := 200;
     LoggedErrorV2.lastMessage := "boom";
     LoggedErrorV2.environments := ["prod"];
     LoggedErrorV2.servers := ["web1"] |}.




(** A payload whose context has the [userId] abc. *)
Definition payload_of_user : string :=
  "{project: P, type: NullPointer, backtrace: at f(a.py), environment: prod, serverName: web1, message: boom, timestamp: 100, context: {userId: abc}}".

(** The stand-ins of [externals], with a decoder that knows this
    payload too. *)
Definition externals_of_user : Externals :=
  {| normalizeBacktrace := λ s, s;
     md5_hexdigest := λ s, s;
     json_dumps := λ _, "{}";
     json_loads := λ s, if bool_decide (s = payload_of_user)
                        then Some (npe_of_user (JStr "abc"))
                        else json_loads (Externals := externals) s;
     SECRET_KEY := "secret";
     int_other := Py.signed_numeral;
     split_other := Py.split;
     timestamp_min := datetime_min;
     timestamp_max := datetime_max;
     timestamp_error := λ _, ValueError;
     fetch_error := BadArgumentError |}.

(** The empty store with that payload queued, under key 0. *)
Definition queued_of_user : State :=
  {| projects := ∅; errors := []; instances := [];
     queue := {[ 0%nat := payload_of_user ]};
     next_id := 1; cache_project := ∅; cache_error := ∅ |}.

End Traffic.

(** * Properties *)

(** ** The store primitives *)

Section StoreLemmas.
Implicit Types (e x : Error) (l : list Error) (k : nat).

Lemma elem_of_put_error x e l : x ∈ put_error e l → x = e ∨ x ∈ l.
Proof.
  induction l as [|y l IH]; simpl.
  - rewrite list_elem_of_singleton. auto.
  - repeat case_bool_decide; rewrite !elem_of_cons; naive_solver.
Qed.

Lemma put_error_elem_of e l : e ∈ put_error e l.
Proof.
  induction l as [|y l IH]; simpl; repeat case_bool_decide; set_solver.
Qed.

Lemma put_error_other x e l :
  x ∈ l → LoggedErrorV2.key x ≠ LoggedErrorV2.key e → x ∈ put_error e l.
Proof.
  induction l as [|y l IH]; simpl; [set_solver|].
  intros Hx Hk. repeat case_bool_decide; set_solver.
Qed.

Lemma get_error_put_eq e l : get_error (LoggedErrorV2.key e) (put_error e l) = Some e.
Proof.
  unfold get_error.
  induction l as [|y l IH]; simpl; repeat (case_bool_decide; simpl); congruence.
Qed.

Lemma get_error_put_ne k e l :
  k ≠ LoggedErrorV2.key e → get_error k (put_error e l) = get_error k l.
Proof.
  unfold get_error. intros Hk.
  induction l as [|y l IH]; simpl; repeat (case_bool_decide; simpl); congruence.
Qed.

Lemma get_error_Some k x l : get_error k l = Some x → x ∈ l ∧ LoggedErrorV2.key x = k.
Proof.
  unfold get_error. intros Hf. apply find_some in Hf as [Hin Hk].
  apply bool_decide_eq_true in Hk. by rewrite list_elem_of_In.
Qed.

Lemma put_error_put_error e' e l :
  LoggedErrorV2.key e' = LoggedErrorV2.key e →
  put_error e' (put_error e l) = put_error e' l.
Proof.
  intros Hk. induction l as [|y l IH]; simpl.
  - rewrite bool_decide_true; done.
  - repeat (case_bool_decide; simpl); try congruence; try lia.
Qed.

(** Putting an error with a key larger than all stored keys appends it. *)
Lemma put_error_fresh e l :
  Forall (λ x, (LoggedErrorV2.key x < LoggedErrorV2.key e)%nat) l →
  put_error e l = l ++ [e].
Proof.
  induction 1 as [|y l Hy Hl IH]; simpl; [done|].
  repeat case_bool_decide; try lia. by rewrite IH.
Qed.

Lemma put_error_sorted e l :
  StronglySorted lt (LoggedErrorV2.key <$> l) →
  StronglySorted lt (LoggedErrorV2.key <$> put_error e l).
Proof.
  induction l as [|y l IH]; simpl; intros Hs.
  - repeat constructor.
  - apply StronglySorted_inv in Hs as [Hs Hy].
    repeat case_bool_decide; simpl.
    + constructor; [done | congruence].
    + constructor; [by constructor|].
      constructor; [lia|]. eapply Forall_impl; [exact Hy|]. simpl. lia.
    + constructor; [by apply IH|].
      rewrite Forall_fmap, Forall_forall. intros x Hx. simpl.
      apply elem_of_put_error in Hx as [->|Hx]; [lia|].
      rewrite Forall_fmap, Forall_forall in Hy. by apply Hy.
Qed.

Lemma sorted_keys_inj x y l :
  StronglySorted lt (LoggedErrorV2.key <$> l) →
  x ∈ l → y ∈ l → LoggedErrorV2.key x = LoggedErrorV2.key y → x = y.
Proof.
  induction l as [|z l IH]; simpl; intros Hs Hx Hy Hk; [by apply elem_of_nil in Hx|].
  apply StronglySorted_inv in Hs as [Hs Hz].
  rewrite Forall_fmap, Forall_forall in Hz. simpl in Hz.
  apply elem_of_cons in Hx as [->|Hx]; apply elem_of_cons in Hy as [->|Hy]; auto.
  - specialize (Hz _ Hy). lia.
  - specialize (Hz _ Hx). lia.
Qed.

End StoreLemmas.

(** ** What [putException] does *)

Section Ingestion.
Context `{Externals}.

Lemma required_Some exception q :
  required exception = Some q →
  Report.backtrace exception = Some (r_backtrace q)
  ∧ Report.environment exception = Some (r_environment q)
  ∧ (∃ m, Report.message exception = Some m ∧ r_message q = default "" m)
  ∧ Report.project exception = Some (r_project q)
  ∧ Report.serverName exception = Some (r_server q)
  ∧ (∃ t, Report.timestamp exception = Some t ∧ fromtimestamp t = Returns (r_timestamp q))
  ∧ Report.type exception = Some (r_type q).
Proof.
  unfold required. intros Hq.
  destruct exception as [b e m p s t ty lm c]; simpl in *.
  destruct b, e, m, p, s, t as [t|]; simplify_eq/=.
  destruct (fromtimestamp t) eqn:Ht, ty; simplify_eq/=.
  eauto 12.
Qed.

Ltac run_putException :=
  unfold putException, ingested, stored_instance, error_stored, target, found, cache_key,
    affected_user in *;
  unfold getAggregatedError, getProject, gets, lift, mbind, DB_bind, get_or_insert,
    lookup_error, db_put_error, memcache_set, db_put_instance, allocate_id, modify,
    str_of_unicode, mret, DB_ret; simpl.

(** A required key is missing, or the timestamp is none that
    [datetime.fromtimestamp] takes: the call raises where it reads,
    before anything is written. *)
Lemma putException_unreadable project_str exception st :
  required exception = None →
  ∃ x, putException project_str exception st = (Raises x, st).
Proof.
  unfold required. intros Hq.
  destruct exception as [b e m p s t ty lm c]; simpl in *.
  unfold putException, lift, mbind, DB_bind, getitem; simpl.
  destruct b; [|by eauto]. destruct e; [|by eauto]. destruct m; [|by eauto].
  destruct p; [|by eauto]. destruct s; [|by eauto]. destruct t as [t|]; [|by eauto].
  simpl in *. destruct (fromtimestamp t); [|by eauto].
  destruct ty; [|by eauto]. simplify_eq/=.
Qed.

(** The reads of the required keys succeed. *)
Ltac read_required Hq :=
  let m := fresh "m" in
  let t := fresh "t" in
  let Hb := fresh in let He := fresh in let Hm := fresh in let Hmq := fresh in
  let Hp := fresh in let Hs := fresh in let Ht := fresh in let Hft := fresh in
  let Hty := fresh in
  apply required_Some in Hq
    as (Hb & He & (m & Hm & Hmq) & Hp & Hs & (t & Ht & Hft) & Hty);
  unfold putException;
  rewrite Hb, He, Hm, Hp, Hs, Ht, Hty; simpl;
  unfold mbind, DB_bind, lift; simpl; rewrite Hft; simpl;
  rewrite <- Hmq.

Ltac case_lookup :=
  let Hc := fresh "Hc" in
  let Hcache := fresh "Hcache" in
  let Hfind := fresh "Hfind" in
  match goal with
  | |- context [bool_decide (?p ∈ cache_project ?st)] =>
      destruct (bool_decide (p ∈ cache_project st)) eqn:Hc
  end;
  destruct (cache_error _ !! _) as [?|] eqn:Hcache; simpl;
  try destruct (find_possibility _ _ _ _) as [?|] eqn:Hfind; simpl;
  rewrite ?Hcache; simpl; rewrite ?Hfind; simpl; rewrite ?Hc; simpl.

(** What [storable] says once the lookups are decided. *)
Ltac use_storable Hs :=
  unfold storable, found, lookup_error, cache_key in Hs; simpl in *;
  repeat match goal with
         | Hx : _ = None |- _ => rewrite Hx in Hs
         | Hx : _ = Some _ |- _ => rewrite Hx in Hs
         end;
  try (destruct Hs as [[? Hs]|Hs]; [discriminate Hs|]; rewrite Hs; simpl).

(** A report that reads well and is storable is stored; [ingested] is
    the result. *)
Lemma putException_valid project_str exception q u st :
  required exception = Some q → affected_user exception = Some u →
  storable project_str q st →
  putException project_str exception st
  = (Returns tt, ingested project_str exception q u st).
Proof.
  intros Hq Hu Hs. read_required Hq. run_putException. case_lookup; use_storable Hs;
    (destruct (context_userId _) as [userId|]; simpl in *;
     [destruct (int_of_json userId); simplify_eq/=|simplify_eq/=]);
    reflexivity.
Qed.

(** The required keys read well but [int] rejects the [userId]: the
    call raises once the error is written, and stores no instance. *)
Lemma putException_bad_user project_str exception q st :
  required exception = Some q → affected_user exception = None →
  storable project_str q st →
  ∃ x, putException project_str exception st
       = (Raises x, error_stored project_str q st).
Proof.
  intros Hq Hu Hs. read_required Hq. run_putException. case_lookup; use_storable Hs;
    (destruct (context_userId _) as [userId|]; simpl in *;
     [destruct (int_of_json userId); simplify_eq/=|simplify_eq/=]);
    eauto.
Qed.

(** The required keys read well, no error is found and [str()] rejects
    the environment: the call raises when it makes the new error, with
    the project got or inserted and nothing else written. *)
Lemma putException_refused project_str exception q st :
  required exception = Some q → ¬ storable project_str q st →
  putException project_str exception st = (Raises ValueError, project_got q st).
Proof.
  intros Hq Hs.
  assert (found project_str q st = None ∧ Py.isascii (r_environment q) = false) as [Hf Ha].
  { unfold storable in Hs. destruct (found project_str q st), (Py.isascii (r_environment q));
      naive_solver. }
  unfold found, lookup_error, cache_key in Hf.
  read_required Hq. run_putException. unfold project_got. case_lookup;
    simpl in *; rewrite ?Hcache, ?Hfind in Hf; try discriminate Hf; rewrite Ha; reflexivity.
Qed.

Lemma found_storable project_str q st g :
  found project_str q st = Some g → storable project_str q st.
Proof. intros Hf. left. by rewrite Hf. Qed.

Lemma project_got_frame q st :
  errors (project_got q st) = errors st
  ∧ instances (project_got q st) = instances st
  ∧ queue (project_got q st) = queue st
  ∧ next_id (project_got q st) = next_id st
  ∧ cache_project (project_got q st) = cache_project st
  ∧ cache_error (project_got q st) = cache_error st
  ∧ projects st ⊆ projects (project_got q st).
Proof. unfold project_got. case_bool_decide; simpl; split_and!; try done. set_solver. Qed.

End Ingestion.

(** ** Claims about ingestion *)

Section IngestionClaims.
Context `{Externals}.

Lemma update_error_ordered g environment server backtraceText message timestamp :
  occurrences_ordered g →
  occurrences_ordered (update_error g environment server backtraceText message timestamp).
Proof.
  unfold occurrences_ordered, update_error. simpl. intros Hg.
  case_bool_decide; lia.
Qed.

Lemma new_error_ordered key parent environment server backtraceText exceptionType errorHash
    message timestamp :
  occurrences_ordered
    (new_error key parent environment server backtraceText exceptionType errorHash message
       timestamp).
Proof. unfold occurrences_ordered. simpl. lia. Qed.

Lemma find_possibility_Some project errorHash backtraceText stored g :
  find_possibility project errorHash backtraceText stored = Some g →
  g ∈ stored
  ∧ LoggedErrorV2.parent_key g = project
  ∧ LoggedErrorV2.hash g = errorHash
  ∧ LoggedErrorV2.active g = true
  ∧ normalizeBacktrace (LoggedErrorV2.backtrace g) = normalizeBacktrace backtraceText.
Proof.
  unfold find_possibility. intros Hf. apply find_some in Hf as [Hin Hn].
  apply bool_decide_eq_true in Hn. apply list_elem_of_In, list_elem_of_filter in Hin.
  naive_solver.
Qed.

Lemma found_ordered project_str q st g :
  all_ordered st → found project_str q st = Some g → occurrences_ordered g.
Proof.
  intros [Hstore Hcache]. unfold found, lookup_error.
  destruct (cache_error st !! _) as [cached|] eqn:Hc.
  - intros [= <-]. exact (Hcache _ _ Hc).
  - intros Hf. apply find_possibility_Some in Hf as [Hin _].
    rewrite Forall_forall in Hstore. by apply Hstore.
Qed.

Lemma target_ordered project_str q st :
  all_ordered st → occurrences_ordered (target project_str q st).
Proof.
  intros Hst. unfold target. destruct (found project_str q st) as [g|] eqn:Hf.
  - apply update_error_ordered. by eapply found_ordered.
  - apply new_error_ordered.
Qed.

Lemma Forall_put_error (P : Error → Prop) e l :
  P e → Forall P l → Forall P (put_error e l).
Proof.
  intros He Hl. rewrite Forall_forall. intros x Hx.
  apply elem_of_put_error in Hx as [->|Hx]; [done|].
  rewrite Forall_forall in Hl. by apply Hl.
Qed.

Lemma error_stored_ordered project_str q st :
  all_ordered st → all_ordered (error_stored project_str q st).
Proof.
  intros Hst. pose proof (target_ordered project_str q st Hst) as Ht.
  destruct Hst as [Hstore Hcache]. split; simpl.
  - by apply Forall_put_error.
  - destruct (found project_str q st); [by apply map_Forall_insert_2 | done].
Qed.

Lemma putException_ordered project_str exception st :
  all_ordered st → all_ordered (putException project_str exception st).2.
Proof.
  intros Hst. destruct (required exception) as [q|] eqn:Hq.
  - destruct (decide (storable project_str q st)) as [Hs|Hs].
    + destruct (affected_user exception) as [u|] eqn:Hu.
      * rewrite (putException_valid _ _ q u) by done.
        apply (error_stored_ordered project_str q) in Hst. exact Hst.
      * destruct (putException_bad_user project_str exception q st) as [x ->]; [done..|].
        by apply error_stored_ordered.
    + rewrite (putException_refused _ _ q) by done.
      destruct (project_got_frame q st) as (He & _ & _ & _ & _ & Hc & _).
      unfold all_ordered. simpl. by rewrite He, Hc.
  - destruct (putException_unreadable project_str exception st) as [x ->]; done.
Qed.

(** C5.  If the first occurrence is not after the last for every stored
    error and every cached snapshot, the same holds after any sequence
    of calls of [putException], whatever reports they carry: a new
    error starts with both equal to the report's timestamp, and an
    update takes the minimum for the first and replaces the last only
    by a later timestamp. *)
Theorem first_occurrence_before_last calls st :
  all_ordered st → all_ordered (ingest_all calls st).
Proof.
  unfold ingest_all. revert st.
  induction calls as [|[project_str exception] calls IH]; simpl; intros st Hst; [done|].
  apply IH. by apply putException_ordered.
Qed.



End IngestionClaims.

(** ** Claims about which error a report goes to *)

Section Grouping.
Context `{Externals}.









(** C1, what the code does.  An active stored error [g] is also
    cached under the key [getAggregatedError] makes for a report, and
    that key is not the text [ResolvePage] deletes (the project's name,
    a bar and the hash).  Then resolving [g] leaves the cached snapshot
    in place, and the next report with that key is merged into it and
    written back: the error stored under [g]'s key is active again,
    with [g]'s count plus one, the report's instance lies under it, and
    no new error has been given an id. *)
Theorem resolved_error_revived project_str exception q u g st :
  required exception = Some q → affected_user exception = Some u →
  get_error (LoggedErrorV2.key g) (errors st) = Some g →
  LoggedErrorV2.active g = true →
  cache_error st !! cache_key project_str q = Some g →
  cache_key project_str q ≠ LoggedErrorV2.parent_key g +:+ "|" +:+ LoggedErrorV2.hash g →
  ∃ r st1 st2 g0 g' i,
    ResolvePage_doAuthenticatedGet (LoggedErrorV2.key g) st = (Returns r, st1)
    ∧ get_error (LoggedErrorV2.key g) (errors st1) = Some g0
    ∧ LoggedErrorV2.active g0 = false
    ∧ putException project_str exception st1 = (Returns tt, st2)
    ∧ get_error (LoggedErrorV2.key g) (errors st2) = Some g'
    ∧ LoggedErrorV2.active g' = true
    ∧ LoggedErrorV2.count g' = LoggedErrorV2.count g + 1
    ∧ instances st2 = instances st ++ [i]
    ∧ LoggedErrorInstanceV2.parent_key i = LoggedErrorV2.key g
    ∧ next_id st2 = S (next_id st).
Proof.
  intros Hq Hu Hg Hact Hc Hkey.
  destruct (ResolvePage_doAuthenticatedGet (LoggedErrorV2.key g) st) as [r st1] eqn:Hres.
  unfold ResolvePage_doAuthenticatedGet, gets, mbind, DB_bind, db_put_error, memcache_delete,
    modify, mret, DB_ret in Hres.
  simpl in Hres. rewrite Hg in Hres. simpl in Hres. injection Hres as <- <-.
  match goal with |- context [put_error ?e (errors st)] => set (g0 := e) end.
  match goal with |- context [mkState ?a ?b ?c ?d ?e ?f ?g] => set (st1 := mkState a b c d e f g) end.
  assert (found project_str q st1 = Some g) as Hf.
  { unfold found, lookup_error. simpl. by rewrite lookup_delete_ne, Hc. }
  exists (mkResponse 200 "ok"), st1, (ingested project_str exception q u st1), g0,
    (target project_str q st1), (stored_instance project_str exception q u st1).
  split; [done|].
  split; [apply (get_error_put_eq g0)|].
  split; [done|].
  split; [apply putException_valid; eauto using found_storable|].
  simpl. unfold stored_instance, target. rewrite Hf. simpl.
  split; [apply (get_error_put_eq (update_error g _ _ _ _ _))|].
  done.
Qed.

End Grouping.

(** ** Claims about the handlers *)

Section Handlers.
Context `{Externals}.

Lemma bind_eq {A B} (m : DB A) (f : A → DB B) st :
  (m ≫= f) st
  = match m st with
    | (Returns a, st') => f a st'
    | (Raises e, st') => (Raises e, st')
    end.
Proof. reflexivity. Qed.

Lemma getProject_new name st :
  name ∉ cache_project st →
  getProject name st
  = (Returns name,
     {| projects := {[name]} ∪ projects st; errors := errors st;
        instances := instances st; queue := queue st; next_id := next_id st;
        cache_project := cache_project st; cache_error := cache_error st |}).
Proof.
  intros Hc. unfold getProject, gets, mbind, DB_bind. simpl.
  by rewrite bool_decide_false.
Qed.

(** Queries read the store and leave it as it is, also when they raise. *)
Lemma filterData_state dataSet key value st : (filterData dataSet key value st).2 = st.
Proof.
  unfold filterData. case_bool_decide; [destruct (int_of_str value)|]; done.
Qed.

Lemma apply_filters_state keys filters query st :
  (apply_filters keys filters query st).2 = st.
Proof.
  revert query. induction keys as [|key keys IH]; intros query; simpl; [done|].
  destruct (filters !! key) as [value|]; [|done].
  unfold mbind, DB_bind.
  pose proof (filterData_state query key value st) as Hfd.
  destruct (filterData query key value st) as [[query'|x] st']; simpl in *; subst; [apply IH|done].
Qed.

Lemma getInstances_state filters parent st : (getInstances filters parent st).2 = st.
Proof.
  unfold getInstances, gets, mbind, DB_bind. cbv beta iota.
  case_bool_decide; [done|].
  match goal with |- context [apply_filters ?k ?f ?q st] =>
    pose proof (apply_filters_state k f q st) as Haf;
    destruct (apply_filters k f q st) as [[query'|x] st'] end; simpl in *; by subst.
Qed.

Lemma filterErrors_state stored instanceFilters st :
  (filterErrors stored instanceFilters st).2 = st.
Proof.
  unfold filterErrors, mbind, DB_bind.
  pose proof (getInstances_state instanceFilters None st) as Hgi.
  destruct (getInstances instanceFilters None st) as [[fetched|x] st']; simpl in *; by subst.
Qed.

Lemma stat_counts_state project now minutes st :
  (stat_counts project now minutes st).2 = st.
Proof.
  induction minutes as [|m minutes IH]; simpl; [done|].
  unfold mbind, DB_bind, gets, lift. simpl.
  destruct (int_of_str m) as [n|]; simpl; [|done].
  destruct (minutes_before now n) as [since|x]; simpl; [|done].
  destruct (stat_counts project now minutes st) as [[counts|x] st'] eqn:Hs; simpl in *; by subst.
Qed.

(** C10.  For a project name that is not empty, has no [Project]
    entity and no memcache entry under ['project:%s' % name], listing
    errors with that name as project filter and asking for statistics
    of that project both leave the store with the [Project] entity
    added and nothing else changed, whatever they answer. *)
Theorem reads_create_project name st :
  name ≠ "" → name ∉ projects st → name ∉ cache_project st →
  let created :=
    {| projects := {[name]} ∪ projects st; errors := errors st;
       instances := instances st; queue := queue st; next_id := next_id st;
       cache_project := cache_project st; cache_error := cache_error st |} in
  name ∈ projects created
  ∧ (∀ filters limit offset,
       filters !! "project" = Some name →
       (getErrors filters limit offset st).2 = created)
  ∧ (∀ minutes now, (StatPage_get SECRET_KEY name minutes now st).2 = created).
Proof.
  intros Hne Hnew Hc created. split; [|split].
  - simpl. set_solver.
  - intros filters limit offset Hp. unfold getErrors. rewrite Hp.
    rewrite !bind_eq, getProject_new by done. fold created.
    unfold mret, DB_ret, gets. cbv beta iota.
    repeat case_bool_decide; try done. rewrite bind_eq. cbv beta iota. rewrite bind_eq.
    match goal with |- context [filterErrors ?s ?f created] =>
      pose proof (filterErrors_state s f created) as Hfe;
      destruct (filterErrors s f created) as [[views|x] st'] end; simpl in *; by subst.
  - intros minutes now. unfold StatPage_get.
    rewrite bool_decide_false by (by intros []).
    rewrite bool_decide_false by done.
    rewrite !bind_eq, getProject_new by done. fold created.
    unfold mret, DB_ret. cbv beta iota. rewrite bind_eq.
    pose proof (stat_counts_state (Some name) now (str_split minutes) created) as Hsc.
    destruct (stat_counts (Some name) now (str_split minutes) created) as [[counts|x] st'];
      simpl in *; by subst.
Qed.

(** C9.  [ReportWorker.post] on a key without [Queue] entity returns
    with the state as it was.  When it returns for a key with entity,
    the payload was decoded, [putException] returned, and the entity
    was deleted from the state [putException] left; so a second
    delivery of the same key returns without any change.  When it
    raises, the [Queue] entity is still there. *)
Theorem worker_redelivery_noop project_str key st :
  (queue st !! key = None → ReportWorker_post project_str key st = (Returns tt, st))
  ∧ match ReportWorker_post project_str key st with
    | (Returns _, st') =>
        queue st' !! key = None
        ∧ (∀ project_str', ReportWorker_post project_str' key st' = (Returns tt, st'))
        ∧ (∀ payload, queue st !! key = Some payload →
             ∃ exception st1,
               json_loads payload = Some exception
               ∧ putException project_str exception st = (Returns tt, st1)
               ∧ st' = (queue_delete key st1).2)
    | (Raises _, st') =>
        queue st' !! key = queue st !! key
        ∧ (queue st' !! key = None → st' = st)
    end.
Proof.
  assert (∀ p s, queue s !! key = None → ReportWorker_post p key s = (Returns tt, s)) as Hnone.
  { intros p s Hk. unfold ReportWorker_post, gets, mbind, DB_bind. simpl. by rewrite Hk. }
  split; [apply Hnone|].
  destruct (queue st !! key) as [payload|] eqn:Hk; [|rewrite Hnone by done; naive_solver].
  unfold ReportWorker_post, gets, mbind, DB_bind. simpl. rewrite Hk.
  destruct (json_loads payload) as [exception|] eqn:Hl; simpl; [|by rewrite Hk].
  destruct (required exception) as [q|] eqn:Hq.
  - destruct (decide (storable project_str q st)) as [Hs|Hs].
    + destruct (affected_user exception) as [u|] eqn:Hu.
      * rewrite (putException_valid _ _ q u) by done.
        unfold queue_delete, modify. cbv beta iota.
        split; [apply lookup_delete_eq|].
        split; [intros p; apply Hnone, lookup_delete_eq|].
        intros ? [= <-]. eexists exception, _.
        split; [done|]. split; [by apply putException_valid|done].
      * destruct (putException_bad_user project_str exception q st) as [x ->]; [done..|].
        simpl. by rewrite Hk.
    + rewrite (putException_refused _ _ q) by done.
      destruct (project_got_frame q st) as (_ & _ & Hqueue & _).
      rewrite Hqueue, Hk. done.
  - destruct (putException_unreadable project_str exception st) as [x ->]; [done|].
    by rewrite Hk.
Qed.

End Handlers.

(** ** The statistics page *)

Section Stats.
Context `{Externals}.

Lemma filter_by_date (c : Z) (l : list Instance) :
  length (filter (λ i, c ≤ LoggedErrorInstanceV2.date i) l)
  = length (filter (λ d, c ≤ d) (LoggedErrorInstanceV2.date <$> l)).
Proof.
  induction l as [|i l IH]; [done|].
  rewrite fmap_cons, !filter_cons. case_decide; simpl; by rewrite IH.
Qed.

(** C8, as the code has it.  With occurrences 5, 30 and 90 minutes
    before [now] and nothing else stored, the statistics page asked
    for the windows ["10 60"] of all projects answers ["1 2"]: one
    occurrence lies within the last 10 minutes and two within the last
    60.  [now] is a time [datetime.now()] can give, and the hour
    before it is within the range of [datetime]. *)
Theorem stats_of_three_occurrences now st :
  datetime_min ≤ now - 3600 → now ≤ datetime_max →
  LoggedErrorInstanceV2.date <$> instances st ≡ₚ [now - 300; now - 1800; now - 5400] →
  StatPage_get SECRET_KEY "" "10 60" now st = (Returns (mkResponse 200 "1 2"), st).
Proof.
  intros Hmin Hmax Hdates. unfold StatPage_get.
  rewrite bool_decide_false by (by intros []).
  rewrite bool_decide_true by done.
  change (str_split "10 60") with ["10"; "60"].
  unfold stat_counts, gets, lift, mbind, DB_bind, mret, DB_ret.
  change (int_of_json (JStr "10")) with (Returns (A:=Z) 10).
  change (int_of_json (JStr "60")) with (Returns (A:=Z) 60).
  cbv beta iota. unfold minutes_before, window_in_range.
  change (10 `div` 1440) with 0. change (60 `div` 1440) with 0.
  rewrite !bool_decide_true by (unfold timedelta_max_days; lia).
  cbv beta iota. rewrite !filter_by_date, Hdates.
  rewrite (filter_cons_True _ (now - 300)) by lia.
  rewrite !(filter_cons_False _ (now - 1800)), !(filter_cons_False _ (now - 5400)) by lia.
  rewrite (filter_cons_True _ (now - 300)) by lia.
  rewrite (filter_cons_True _ (now - 1800)) by lia.
  rewrite (filter_cons_False _ (now - 5400)) by lia.
  reflexivity.
Qed.

End Stats.

(** ** Ordering *)

Section Sorting.
Context {A : Type} (f : A → Z).

Lemma insert_desc_perm x l : insert_desc f x l ≡ₚ x :: l.
Proof.
  induction l as [|y l IH]; simpl; [done|].
  case_bool_decide; [done|]. rewrite IH. apply Permutation_swap.
Qed.

Lemma sort_desc_perm l : sort_desc f l ≡ₚ l.
Proof.
  induction l as [|x l IH]; simpl; [done|].
  rewrite insert_desc_perm. by constructor.
Qed.

Lemma insert_desc_sorted x l :
  StronglySorted (λ a b, f b ≤ f a) l →
  StronglySorted (λ a b, f b ≤ f a) (insert_desc f x l).
Proof.
  induction l as [|y l IH]; simpl; intros Hs; [repeat constructor|].
  apply StronglySorted_inv in Hs as [Hs Hy].
  case_bool_decide.
  - constructor; [by constructor|].
    constructor; [done|]. eapply Forall_impl; [exact Hy|]. simpl. lia.
  - constructor; [by apply IH|].
    rewrite insert_desc_perm. constructor; [lia|done].
Qed.

Lemma sort_desc_sorted l : StronglySorted (λ a b, f b ≤ f a) (sort_desc f l).
Proof.
  induction l as [|x l IH]; simpl; [constructor|]. by apply insert_desc_sorted.
Qed.

(** The head of a sorted non-empty list carries the largest key. *)
Lemma sort_desc_hd d l :
  l ≠ [] →
  hd d (sort_desc f l) ∈ l ∧ ∀ x, x ∈ l → f x ≤ f (hd d (sort_desc f l)).
Proof.
  intros Hl. pose proof (sort_desc_perm l) as Hp. pose proof (sort_desc_sorted l) as Hs.
  destruct (sort_desc f l) as [|y s]; [by apply Permutation_nil_l in Hp|].
  simpl. apply StronglySorted_inv in Hs as [_ Hy]. rewrite Forall_forall in Hy.
  split; [rewrite <- Hp; left|].
  intros x Hx. rewrite <- Hp in Hx. apply elem_of_cons in Hx as [->|Hx]; [lia|by apply Hy].
Qed.

End Sorting.

(** ** The filtered list of errors *)

Section Listing.
Context `{Externals}.

Lemma getProject_reads name st :
  ∃ st1, getProject name st = (Returns name, st1)
         ∧ errors st1 = errors st ∧ instances st1 = instances st.
Proof.
  unfold getProject, gets, lift, get_or_insert. rewrite bind_eq.
  destruct (bool_decide (name ∈ cache_project st)); eauto.
Qed.

Lemma instance_filters_lookup (filters : gmap string string) k :
  k ∈ INSTANCE_FILTERS →
  filter (λ kv : string * string, kv.1 ∈ INSTANCE_FILTERS) filters !! k = filters !! k.
Proof.
  intros Hk. destruct (filters !! k) as [v|] eqn:Hv.
  - by apply map_lookup_filter_Some.
  - apply map_lookup_filter_None. by left.
Qed.

Lemma passes_instance_filters (filters : gmap string string) i :
  passes (filter (λ kv : string * string, kv.1 ∈ INSTANCE_FILTERS) filters) i
  ↔ passes filters i.
Proof.
  unfold passes.
  rewrite !instance_filters_lookup; [done|unfold INSTANCE_FILTERS; set_solver..].
Qed.

Lemma filter_all {A} (P : A → Prop) `{!∀ x, Decision (P x)} (l : list A) :
  (∀ x, P x) → filter P l = l.
Proof.
  intros HP. induction l as [|x l IH]; [done|].
  by rewrite filter_cons_True, IH.
Qed.

(** The three filters of [getInstances], applied one after the other,
    keep the instances that pass. *)
Lemma apply_filters_passes filters query st :
  (∀ v, filters !! "affectedUser" = Some v → is_Some (int_of_str v)) →
  apply_filters INSTANCE_FILTERS filters query st
  = (Returns (filter (passes filters) query), st).
Proof.
  intros Hint. unfold INSTANCE_FILTERS, apply_filters.
  destruct (filters !! "environment") as [ve|] eqn:He;
    destruct (filters !! "server") as [vs|] eqn:Hs;
    destruct (filters !! "affectedUser") as [vu|] eqn:Hu;
    try (destruct (Hint vu eq_refl) as [n Hn]);
    unfold filterData; simpl; rewrite ?Hn; unfold mret, DB_ret, mbind, DB_bind; simpl;
    rewrite ?list_filter_filter; f_equal; f_equal; symmetry;
    (apply list_filter_iff || apply filter_all); intros i;
    unfold passes, instance_property; rewrite He, Hs, Hu, ?Hn; simpl;
    destruct (LoggedErrorInstanceV2.affectedUser i); naive_solver.
Qed.

Lemma getInstances_passes filters st :
  filters ≠ ∅ →
  (∀ v, filters !! "affectedUser" = Some v → is_Some (int_of_str v)) →
  getInstances filters None st
  = (Returns (sort_desc LoggedErrorInstanceV2.date (filter (passes filters) (instances st))),
     st).
Proof.
  intros Hne Hint. unfold getInstances, gets. rewrite bind_eq. cbv beta iota.
  rewrite bool_decide_false by done. rewrite bind_eq, apply_filters_passes by done.
  reflexivity.
Qed.

(** The bucket of an error holds its matching occurrences. *)
Lemma bucket_matching filters e st :
  filter (λ i, LoggedErrorInstanceV2.parent_key i = LoggedErrorV2.key e)
    (sort_desc LoggedErrorInstanceV2.date (filter (passes filters) (instances st)))
  ≡ₚ matching filters e st.
Proof.
  rewrite sort_desc_perm, list_filter_filter. done.
Qed.

Lemma errorDict_derived e first bucket hits :
  bucket ≡ₚ hits → bucket ≠ [] → derived_view e hits (errorDict e first bucket).
Proof.
  intros Hp Hne. unfold derived_view, errorDict. simpl.
  destruct (sort_desc_hd LoggedErrorInstanceV2.date first bucket Hne) as [Hin Hmax].
  split_and!; try done.
  - intros ->. by apply Permutation_nil_r in Hp.
  - by rewrite Hp.
  - eexists. split; [|done]. by rewrite <- Hp.
  - intros i Hi. apply Hmax. by rewrite Hp.
  - apply NoDup_remove_dups.
  - intros x. rewrite elem_of_remove_dups, list_elem_of_fmap. setoid_rewrite Hp. naive_solver.
  - apply NoDup_remove_dups.
  - intros x. rewrite elem_of_remove_dups, list_elem_of_fmap. setoid_rewrite Hp. naive_solver.
Qed.

Lemma Forall2_omap_filter {A B} (R : B → A → Prop) (f : A → option B) (P : A → Prop)
    `{!∀ x, Decision (P x)} (l : list A) :
  (∀ x, match f x with Some y => P x ∧ R y x | None => ¬ P x end) →
  Forall2 R (omap f l) (filter P l).
Proof.
  intros Hf. induction l as [|x l IH]; simpl; [constructor|].
  specialize (Hf x). destruct (f x) as [y|].
  - destruct Hf as [HP HR]. rewrite filter_cons_True by done. by constructor.
  - by rewrite filter_cons_False.
Qed.

(** C6.  Calls of [getErrors] with at least one occurrence-level
    filter, whose [affectedUser] filter (if any) is an integer,
    return.  There is a sequence of the listed errors (active, of the
    project asked for) by last occurrence, latest first, of which every
    such call gives a page: the errors without an occurrence passing
    the filters are dropped, [offset] of the rest are skipped and
    [limit] taken, and each view returned is the derived view of its
    error for exactly the occurrences of that error that pass the
    filters.  How errors with the same last occurrence follow each
    other is left open. *)
Theorem filtered_list_is_derived filters st :
  (∃ k, k ∈ INSTANCE_FILTERS ∧ is_Some (filters !! k)) →
  (∀ v, filters !! "affectedUser" = Some v → is_Some (int_of_str v)) →
  ∃ ordered,
    ordered ≡ₚ filter (listed filters) (errors st)
    ∧ StronglySorted
        (λ a b, LoggedErrorV2.lastOccurrence b ≤ LoggedErrorV2.lastOccurrence a) ordered
    ∧ ∀ limit offset,
        ∃ views st',
          getErrors filters limit offset st = (Returns views, st')
          ∧ Forall2 (λ view e, derived_view e (matching filters e st) view)
              views
              (take limit (drop offset (filter (λ e, matching filters e st ≠ []) ordered))).
Proof.
  intros (k & Hk & v & Hv) Hint.
  exists (sort_desc LoggedErrorV2.lastOccurrence (filter (listed filters) (errors st))).
  split; [apply sort_desc_perm|]. split; [apply sort_desc_sorted|]. intros limit offset.
  set (instanceFilters := filter (λ kv : string * string, kv.1 ∈ INSTANCE_FILTERS) filters).
  assert (instanceFilters ≠ ∅) as Hne.
  { intros Hempty. pose proof (instance_filters_lookup filters k Hk) as Hl.
    fold instanceFilters in Hl. rewrite Hempty, lookup_empty, Hv in Hl. done. }
  assert (∀ v, instanceFilters !! "affectedUser" = Some v → is_Some (int_of_str v)) as Hint'.
  { intros w. unfold instanceFilters. rewrite instance_filters_lookup; [apply Hint|].
    unfold INSTANCE_FILTERS. set_solver. }
  set (ordered := sort_desc LoggedErrorV2.lastOccurrence (filter (listed filters) (errors st))).
  assert (sort_desc LoggedErrorV2.lastOccurrence
            (match filters !! "project" with
             | Some p => filter (λ e, LoggedErrorV2.parent_key e = p)
                           (filter (λ e, LoggedErrorV2.active e = true) (errors st))
             | None => filter (λ e, LoggedErrorV2.active e = true) (errors st)
             end) = ordered) as Hord.
  { unfold ordered. f_equal.
    destruct (filters !! "project") as [p|] eqn:Hp; rewrite ?list_filter_filter;
      apply list_filter_iff; intros e; unfold listed; rewrite Hp; naive_solver. }
  assert (∃ st1,
            (match filters !! "project" with
             | Some value => p ← getProject value; mret (Some p)
             | None => mret None
             end : DB (option string)) st
            = (Returns (filters !! "project"), st1)
            ∧ errors st1 = errors st ∧ instances st1 = instances st) as (st1 & Hproj & He1 & Hi1).
  { destruct (filters !! "project") as [p|]; [|by exists st].
    destruct (getProject_reads p st) as (st1 & Hg & ? & ?).
    exists st1. rewrite bind_eq, Hg. done. }
  assert (∃ views,
            getErrors filters limit offset st = (Returns views, st1)
            ∧ Forall2 (λ view e, derived_view e (matching filters e st) view) views
                (take limit (drop offset (filter (λ e, matching filters e st ≠ []) ordered))))
    as (views & Hrun & Hviews).
  { unfold getErrors. rewrite bind_eq, Hproj. cbv beta iota.
    unfold gets. rewrite bind_eq. cbv beta iota. fold instanceFilters.
    rewrite He1, Hord, (bool_decide_false _ Hne).
    case_bool_decide as Hzero.
    - destruct Hzero as [-> ->]. exists []. split; [done|]. simpl. constructor.
    - unfold filterErrors. rewrite !bind_eq, getInstances_passes by done.
      cbv beta iota. unfold mret, DB_ret. eexists. split; [reflexivity|].
      apply Forall2_take, Forall2_drop, Forall2_omap_filter. intros e.
      pose proof (bucket_matching instanceFilters e st1) as Hb.
      assert (matching instanceFilters e st1 = matching filters e st) as Hm.
      { unfold matching. rewrite Hi1. apply list_filter_iff. intros i.
        unfold instanceFilters. by rewrite passes_instance_filters. }
      rewrite Hm in Hb.
      destruct (filter _ (sort_desc _ _)) as [|first bucket] eqn:Hbucket.
      + intros Hhits. by apply Permutation_nil_l in Hb.
      + split; [intros Hhits; rewrite Hhits in Hb; by apply Permutation_nil_r in Hb|].
        by apply errorDict_derived. }
  by exists views, st1.
Qed.

End Listing.

(** ** The claims on concrete inputs *)

Section Concrete.
Import Sample Traffic.
#[local] Existing Instance externals.

(** The hypotheses of [resolved_error_revived] hold for the store
    [twice] and one more report of the same error: resolving error 0
    and ingesting the report leaves error 0 active with count 3. *)
Lemma resolved_error_revived_witness :
  ∃ r st1 st2 g0 g' i,
    ResolvePage_doAuthenticatedGet 0 twice = (Returns r, st1)
    ∧ get_error 0 (errors st1) = Some g0
    ∧ LoggedErrorV2.active g0 = false
    ∧ putException project_str (npe "prod" 300) st1 = (Returns tt, st2)
    ∧ get_error 0 (errors st2) = Some g'
    ∧ LoggedErrorV2.active g' = true
    ∧ LoggedErrorV2.count g' = 2 + 1
    ∧ instances st2 = instances twice ++ [i]
    ∧ LoggedErrorInstanceV2.parent_key i = 0%nat
    ∧ next_id st2 = S (next_id twice).
Proof.
  apply (resolved_error_revived project_str (npe "prod" 300) (npe_required "prod" 300) None
           twice_error twice).
  - reflexivity.
  - reflexivity.
  - vm_compute. reflexivity.
  - reflexivity.
  - vm_compute. reflexivity.
  - vm_compute. discriminate.
Defined.







(** The three reports of the example, from the empty store. *)
Lemma first_occurrence_before_last_witness : all_ordered thrice.
Proof.
  apply (first_occurrence_before_last
           [(project_str, npe "prod" 100); (project_str, npe "prod" 200);
            (project_str, npe "staging" 150)] empty_state).
  split; [constructor | apply map_Forall_empty].
Defined.

(** Listing the errors of [thrice] that occurred in staging. *)
Lemma filtered_list_is_derived_witness :
  let filters : gmap string string := {[ "environment" := "staging" ]} in
  ∃ ordered,
    ordered ≡ₚ filter (listed filters) (errors thrice)
    ∧ StronglySorted
        (λ a b, LoggedErrorV2.lastOccurrence b ≤ LoggedErrorV2.lastOccurrence a) ordered
    ∧ ∀ limit offset,
        ∃ views st',
          getErrors filters limit offset thrice = (Returns views, st')
          ∧ Forall2 (λ view e, derived_view e (matching filters e thrice) view)
              views
              (take limit
                 (drop offset (filter (λ e, matching filters e thrice ≠ []) ordered))).
Proof.
  apply (filtered_list_is_derived {[ "environment" := "staging" ]} thrice).
  - exists "environment". split; [by left | by eexists].
  - intros v Hv. vm_compute in Hv. discriminate.
Defined.



(** The store [three_occurrences] at time 10000. *)
Lemma stats_of_three_occurrences_witness :
  StatPage_get SECRET_KEY "" "10 60" 10000 three_occurrences
  = (Returns (mkResponse 200 "1 2"), three_occurrences).
Proof.
  apply (stats_of_three_occurrences 10000 three_occurrences).
  - unfold datetime_min. lia.
  - unfold datetime_max. lia.
  - reflexivity.
Defined.

(** C8 as stated fails.  Asked for the windows 10 and 60 minutes at
    time 10000, with occurrences 5, 30 and 90 minutes earlier, the
    page answers ["1 2"], not ["2 3"]. *)
Lemma stats_answer_is_not_2_3 :
  LoggedErrorInstanceV2.date <$> instances three_occurrences
  = [10000 - 5 * 60; 10000 - 30 * 60; 10000 - 90 * 60]
  ∧ (StatPage_get "secret" "" "10 60" 10000 three_occurrences).1
    = Returns (mkResponse 200 "1 2")
  ∧ (StatPage_get "secret" "" "10 60" 10000 three_occurrences).1
    ≠ Returns (mkResponse 200 "2 3").
Proof. vm_compute. repeat split. discriminate. Qed.

(** A project Q that the empty store does not have. *)
Lemma reads_create_project_witness :
  let created :=
    {| projects := {["Q"]} ∪ projects empty_state; errors := errors empty_state;
       instances := instances empty_state; queue := queue empty_state;
       next_id := next_id empty_state;
       cache_project := cache_project empty_state;
       cache_error := cache_error empty_state |} in
  "Q" ∈ projects created
  ∧ (∀ (filters : gmap string string) limit offset,
       filters !! "project" = Some "Q" →
       (getErrors filters limit offset empty_state).2 = created)
  ∧ (∀ minutes now, (StatPage_get SECRET_KEY "Q" minutes now empty_state).2 = created).
Proof.
  apply (reads_create_project "Q" empty_state).
  - discriminate.
  - apply not_elem_of_empty.
  - apply not_elem_of_empty.
Defined.

(** The queued payload is processed once: the first delivery stores
    the error and the instance and deletes the record, the second
    changes nothing. *)
Lemma worker_redelivery_noop_witness :
  let st' := (ReportWorker_post project_str 0 queued).2 in
  (ReportWorker_post project_str 0 queued).1 = Returns tt
  ∧ length (errors st') = 1%nat
  ∧ length (instances st') = 1%nat
  ∧ queue st' !! 0%nat = None
  ∧ ReportWorker_post project_str 0 st' = (Returns tt, st').
Proof.
  pose proof (proj2 (worker_redelivery_noop project_str 0 queued)) as Hw.
  assert (length (errors (ReportWorker_post project_str 0 queued).2) = 1%nat) as He
    by (vm_compute; reflexivity).
  assert (length (instances (ReportWorker_post project_str 0 queued).2) = 1%nat) as Hi
    by (vm_compute; reflexivity).
  destruct (ReportWorker_post project_str 0 queued) as [[[]|x] st'] eqn:Hrun;
    [|vm_compute in Hrun; discriminate].
  destruct Hw as (Hq & Hre & _). simpl in *. auto.
Defined.

(** The example of the specification: three reports of one error, from
    environments prod, prod and staging, dated 100, 200 and 150. *)
Example three_reports_one_error :
  errors thrice
  = [ {| LoggedErrorV2.key := 0;
         LoggedErrorV2.parent_key := "P";
         LoggedErrorV2.backtrace := "at f(a.py)";
         LoggedErrorV2.type := "NullPointer";
         LoggedErrorV2.hash := "NullPointerat f(a.py)";
         LoggedErrorV2.active := true;
         LoggedErrorV2.count := 3;
         LoggedErrorV2.level := 30;
         LoggedErrorV2.firstOccurrence := 100;
         LoggedErrorV2.lastOccurrence := 200;
         LoggedErrorV2.lastMessage := "boom";
         LoggedErrorV2.environments := ["prod"; "staging"];
         LoggedErrorV2.servers := ["web1"] |} ].
Proof. vm_compute. reflexivity. Qed.

(** ... and the list of its errors that occurred in staging: the one
    error, with count 1 and staging as only environment. *)
Example staging_view :
  fmap (M := list)
    (λ e, (LoggedErrorV2.key e, LoggedErrorV2.count e, LoggedErrorV2.lastOccurrence e,
           LoggedErrorV2.environments e))
  <$> returned (getErrors {[ "environment" := "staging" ]} 51 0 thrice).1
  = Some [(0%nat, 1, 150, ["staging"])].
Proof. vm_compute. reflexivity. Qed.

End Concrete.

(** * More of the server *)

(** ** Texts *)

Section Texts.

Lemma append_assoc (s1 s2 s3 : string) : (s1 +:+ s2) +:+ s3 = s1 +:+ (s2 +:+ s3).
Proof.
  induction s1 as [|c s1 IH]; [done|].
  change (String c ((s1 +:+ s2) +:+ s3) = String c (s1 +:+ (s2 +:+ s3))).
  by rewrite IH.
Qed.

Lemma slice_to_length n s : (String.length (Py.slice_to n s) ≤ n)%nat.
Proof.
  unfold Py.slice_to. revert s. induction n as [|n IH]; intros [|c s]; simpl; try lia.
  specialize (IH s). lia.
Qed.

Lemma replace_newline_length s : String.length (Py.replace_newline s) = String.length s.
Proof. induction s as [|c s IH]; simpl; [done|]. by rewrite IH. Qed.

Lemma replace_newline_clean s : "010"%char ∉ list_ascii_of_string (Py.replace_newline s).
Proof.
  induction s as [|c s IH]; simpl; [apply not_elem_of_nil|].
  rewrite not_elem_of_cons. split; [|done].
  case_bool_decide as Hc; [done|]. intros <-. by apply Hc.
Qed.

End Texts.

(** ** The request parameters *)

Section Parameters.

Lemma request_get_app name (l1 l2 : list (string * string)) :
  request_get name (l1 ++ l2)
  = match request_get name l1 with
    | Some v => Some v
    | None => request_get name l2
    end.
Proof.
  unfold request_get. induction l1 as [|[k v] l1 IH]; simpl; [done|].
  case_bool_decide; simpl; [done|]. apply IH.
Qed.

Lemma request_get_cons name k v (l : list (string * string)) :
  request_get name ((k, v) :: l)
  = if bool_decide (k = name) then Some v else request_get name l.
Proof. unfold request_get. simpl. by case_bool_decide. Qed.

(** X1.  [getFilters] keeps the four keys it knows and nothing else,
    and for a key given several times it keeps the value given last. *)
Theorem getFilters_last_value params k :
  getFilters params !! k
  = if bool_decide (k ∈ INSTANCE_FILTERS ∨ k = "project")
    then request_get k (reverse params) else None.
Proof.
  unfold getFilters. induction params as [|[k' v'] params IH] using rev_ind.
  - simpl. rewrite lookup_empty. by case_bool_decide.
  - rewrite foldl_app, reverse_app. simpl. rewrite request_get_cons.
    destruct (decide (k' = k)) as [->|Hne].
    + rewrite (bool_decide_true (k = k)) by done.
      destruct (decide (k ∈ INSTANCE_FILTERS ∨ k = "project")) as [Hk|Hk].
      * rewrite !(bool_decide_true _ Hk). apply lookup_insert_eq.
      * rewrite !(bool_decide_false _ Hk). rewrite IH. by rewrite (bool_decide_false _ Hk).
    + rewrite (bool_decide_false (k' = k)) by done. rewrite <- IH.
      destruct (decide (k' ∈ INSTANCE_FILTERS ∨ k' = "project")) as [Hk'|Hk'].
      * rewrite (bool_decide_true _ Hk'). by rewrite lookup_insert_ne.
      * by rewrite (bool_decide_false _ Hk').
Qed.

End Parameters.

(** ** The hash *)

Section Hash.
Context `{Externals}.

(** X2.  The type and the normalized backtrace go into the digest one
    after the other with nothing between them: text moved from the
    front of the normalized backtrace to the end of the type gives the
    same hash. *)
Theorem generateHash_boundary exceptionType moved backtraceText backtraceText' :
  normalizeBacktrace backtraceText = moved +:+ normalizeBacktrace backtraceText' →
  generateHash (exceptionType +:+ moved) backtraceText'
  = generateHash exceptionType backtraceText.
Proof.
  intros Hn. unfold generateHash. by rewrite Hn, append_assoc.
Qed.

End Hash.

(** ** What the pages leave in the store *)

Section Frames.
Context `{Externals}.

Lemma only_projects_added_refl st : only_projects_added st st.
Proof. by repeat split. Qed.

Lemma getProject_run name st :
  getProject name st
  = (Returns name, if bool_decide (name ∈ cache_project st) then st else with_project name st).
Proof.
  unfold getProject, gets, lift, get_or_insert. rewrite bind_eq.
  by destruct (bool_decide (name ∈ cache_project st)).
Qed.

Lemma getProject_only_projects name st : only_projects_added st (getProject name st).2.
Proof.
  rewrite getProject_run. simpl. case_bool_decide; [apply only_projects_added_refl|].
  repeat split. simpl. set_solver.
Qed.

Lemma getErrors_state filters limit offset st :
  (getErrors filters limit offset st).2
  = match filters !! "project" with
    | Some value => (getProject value st).2
    | None => st
    end.
Proof.
  unfold getErrors. rewrite bind_eq.
  assert (∃ st1,
            (match filters !! "project" with
             | Some value => p ← getProject value; mret (Some p)
             | None => mret None
             end : DB (option string)) st = (Returns (filters !! "project"), st1)
            ∧ st1 = match filters !! "project" with
                    | Some value => (getProject value st).2
                    | None => st
                    end) as (st1 & -> & <-).
  { destruct (filters !! "project") as [p|]; [|by exists st].
    eexists. rewrite bind_eq, getProject_run. done. }
  cbv beta iota. unfold gets. rewrite bind_eq. cbv beta iota.
  repeat case_bool_decide; try done. rewrite bind_eq.
  match goal with |- context [filterErrors ?s ?f st1] =>
    pose proof (filterErrors_state s f st1) as Hfe;
    destruct (filterErrors s f st1) as [[views|x] st'] end; simpl in *; by subst.
Qed.

Lemma getErrors_only_projects filters limit offset st :
  only_projects_added st (getErrors filters limit offset st).2.
Proof.
  rewrite getErrors_state. destruct (filters !! "project");
    [apply getProject_only_projects | apply only_projects_added_refl].
Qed.

Lemma StatPage_only_projects key project minutes now st :
  only_projects_added st (StatPage_get key project minutes now st).2.
Proof.
  unfold StatPage_get. case_bool_decide; [apply only_projects_added_refl|].
  rewrite bind_eq.
  assert (∃ o st1,
            (if bool_decide (project = "") then mret None
             else p ← getProject project; mret (Some p) : DB (option string)) st
            = (Returns o, st1) ∧ only_projects_added st st1) as (o & st1 & -> & Hst1).
  { case_bool_decide; [by eexists _, st; split; [|apply only_projects_added_refl]|].
    eexists _, _. rewrite bind_eq, getProject_run. split; [done|].
    pose proof (getProject_only_projects project st) as Hp. by rewrite getProject_run in Hp. }
  cbv beta iota. rewrite bind_eq.
  pose proof (stat_counts_state o now (str_split minutes) st1) as Hsc.
  destruct (stat_counts o now (str_split minutes) st1) as [[counts|x] st']; simpl in *; by subst.
Qed.

Lemma ListPage_only_projects params st :
  only_projects_added st (ListPage_doAuthenticatedGet params st).2.
Proof.
  unfold ListPage_doAuthenticatedGet. rewrite bind_eq.
  assert (∃ o, (match request_get "page" params with
                | Some text => lift (int_of_json (JStr text))
                | None => mret 0
                end : DB Z) st = (o, st)) as [o ->].
  { destruct (request_get "page" params); [unfold lift|]; eauto. }
  destruct o as [page|x]; [|apply only_projects_added_refl]. rewrite bind_eq.
  case_bool_decide.
  - rewrite bind_eq.
    pose proof (getErrors_only_projects (getFilters params) 0 0 st) as Hg.
    destruct (getErrors (getFilters params) 0 0 st) as [[views|x] st']; done.
  - pose proof (getErrors_only_projects (getFilters params) 51 (Z.to_nat page * 50) st) as Hg.
    destruct (getErrors _ 51 _ st) as [[views|x] st']; done.
Qed.

Lemma ViewPage_state key params st : (ViewPage_doAuthenticatedGet key params st).2 = st.
Proof.
  unfold ViewPage_doAuthenticatedGet, gets. rewrite bind_eq. cbv beta iota.
  destruct (get_error key (errors st)) as [error|]; [|done]. rewrite bind_eq.
  match goal with |- context [getInstances ?f ?p st] =>
    pose proof (getInstances_state f p st) as Hgi;
    destruct (getInstances f p st) as [[found|x] st'] end; simpl in *; by subst.
Qed.

End Frames.

(** ** What holds in every state the requests lead to *)

Section Reachable.
Context `{Externals}.

(** The state a call of [putException] leaves is one of four. *)
Lemma putException_cases project_str exception st :
  (putException project_str exception st).2 = st
  ∨ (∃ q, (putException project_str exception st).2 = project_got q st)
  ∨ (∃ q, (putException project_str exception st).2 = error_stored project_str q st)
  ∨ (∃ q u, (putException project_str exception st).2
            = ingested project_str exception q u st).
Proof.
  destruct (required exception) as [q|] eqn:Hq.
  - destruct (decide (storable project_str q st)) as [Hs|Hs].
    + destruct (affected_user exception) as [u|] eqn:Hu.
      * right. right. right. exists q, u. by rewrite (putException_valid _ _ q u).
      * right. right. left. exists q.
        by destruct (putException_bad_user project_str exception q st) as [x ->].
    + right. left. exists q. by rewrite (putException_refused _ _ q).
  - left. by destruct (putException_unreadable project_str exception st) as [x ->].
Qed.

(** ... and so is the state a call of the worker leaves. *)
Lemma ReportWorker_cases project_str task st :
  (ReportWorker_post project_str task st).2 = st
  ∨ ∃ exception,
      (ReportWorker_post project_str task st).2 = (putException project_str exception st).2
      ∨ (ReportWorker_post project_str task st).2
        = (queue_delete task (putException project_str exception st).2).2.
Proof.
  unfold ReportWorker_post, gets. rewrite bind_eq. cbv beta iota.
  destruct (queue st !! task) as [payload|]; [|by left]. rewrite bind_eq.
  destruct (json_loads payload) as [exception|]; [|by left].
  right. exists exception. unfold mret, DB_ret. cbv beta iota. rewrite bind_eq.
  destruct (putException project_str exception st) as [[[]|x] st']; [right|left]; done.
Qed.

Section Everywhere.
Variable P : Error → Prop.
Hypothesis P_update :
  ∀ e environment server backtraceText message timestamp,
    P e → P (update_error e environment server backtraceText message timestamp).
Hypothesis P_new :
  ∀ key parent environment server backtraceText exceptionType errorHash message timestamp,
    P (new_error key parent environment server backtraceText exceptionType errorHash message
         timestamp).
Hypothesis P_active :
  ∀ key parent backtrace type hash active active' count level first last message
    environments servers,
    P (LoggedErrorV2.mk key parent backtrace type hash active count level first last message
         environments servers) →
    P (LoggedErrorV2.mk key parent backtrace type hash active' count level first last message
         environments servers).

Lemma error_stored_everywhere project_str q st :
  everywhere P st → everywhere P (error_stored project_str q st).
Proof using P_update P_new.
  intros [Hstore Hcache].
  assert (P (target project_str q st)) as Ht.
  { unfold target. destruct (found project_str q st) as [g|] eqn:Hf; [|apply P_new].
    apply P_update. unfold found, lookup_error in Hf.
    destruct (cache_error st !! _) as [cached|] eqn:Hc.
    - injection Hf as <-. exact (Hcache _ _ Hc).
    - apply find_possibility_Some in Hf as [Hin _].
      rewrite Forall_forall in Hstore. by apply Hstore. }
  split; simpl.
  - by apply Forall_put_error.
  - destruct (found project_str q st); [by apply map_Forall_insert_2 | done].
Qed.

Lemma putException_everywhere project_str exception st :
  everywhere P st → everywhere P (putException project_str exception st).2.
Proof using P_update P_new.
  intros Hst.
  destruct (putException_cases project_str exception st)
    as [->|[[q ->]|[[q ->]|(q & u & ->)]]]; [done| |by apply error_stored_everywhere|].
  - destruct (project_got_frame q st) as (He & _ & _ & _ & _ & Hc & _).
    unfold everywhere. by rewrite He, Hc.
  - by apply (error_stored_everywhere project_str q) in Hst.
Qed.

Lemma serve_everywhere r st : everywhere P st → everywhere P (serve r st).
Proof using P_update P_new P_active.
  intros Hst. destruct r as [key body|project_str task|key project minutes now|params
                            |key params|key|is_admin]; simpl.
  - unfold ReportPage_post. case_bool_decide; [done|]. by destruct Hst.
  - destruct (ReportWorker_cases project_str task st) as [->|[exception [->| ->]]];
      [done|by apply putException_everywhere|].
    by apply (putException_everywhere project_str exception) in Hst.
  - destruct (StatPage_only_projects key project minutes now st)
      as (_ & He & _ & _ & _ & _ & Hc).
    destruct Hst. split; by rewrite ?He, ?Hc.
  - destruct (ListPage_only_projects params st) as (_ & He & _ & _ & _ & _ & Hc).
    destruct Hst. split; by rewrite ?He, ?Hc.
  - by rewrite ViewPage_state.
  - unfold ResolvePage_doAuthenticatedGet, gets. rewrite bind_eq. cbv beta iota.
    destruct (get_error key (errors st)) as [e|] eqn:He; [|done].
    destruct Hst as [Hstore Hcache].
    apply get_error_Some in He as [Hin _].
    split; simpl.
    + apply Forall_put_error; [|done]. rewrite Forall_forall in Hstore.
      specialize (Hstore _ Hin). destruct e. simpl. by eapply P_active.
    + by apply map_Forall_delete.
  - destruct is_admin; [|done]. destruct Hst. split; simpl; [constructor|done].
Qed.

Lemma serve_all_everywhere rs st : everywhere P st → everywhere P (serve_all rs st).
Proof using P_update P_new P_active.
  unfold serve_all. revert st. induction rs as [|r rs IH]; simpl; intros st Hst; [done|].
  by apply IH, serve_everywhere.
Qed.

End Everywhere.

(** X3.  Whatever requests are served, stored errors and cached
    snapshots keep a last message of at most 300 characters and a type
    of at most 500 characters without line break, if they had them to
    begin with: [putException] cuts both texts and replaces the line
    breaks of the type when it creates an error, and cuts the message
    when it updates one. *)
Theorem texts_stay_bounded rs st :
  everywhere texts_bounded st → everywhere texts_bounded (serve_all rs st).
Proof.
  apply serve_all_everywhere.
  - intros e environment server backtraceText message timestamp (Hm & Ht & Hn).
    unfold texts_bounded, update_error. simpl. split; [|done].
    case_bool_decide; [apply slice_to_length | done].
  - intros. unfold texts_bounded, new_error. simpl.
    split; [apply slice_to_length|]. split; [|apply replace_newline_clean].
    rewrite replace_newline_length.
    case_bool_decide as Hlen; [apply slice_to_length | lia].
  - done.
Qed.

(** X4.  Whatever requests are served, stored errors and cached
    snapshots keep a count of at least one and, in their lists of
    environments and servers, at least one entry and no entry twice. *)
Theorem sets_stay_proper rs st :
  everywhere sets_proper st → everywhere sets_proper (serve_all rs st).
Proof.
  apply serve_all_everywhere.
  - intros e environment server backtraceText message timestamp (Hc & He & Hs & Hne & Hns).
    unfold sets_proper, update_error. simpl.
    split; [lia|].
    split; [case_bool_decide; [done|]; by destruct (LoggedErrorV2.environments e)|].
    split; [case_bool_decide; [done|]; by destruct (LoggedErrorV2.servers e)|].
    split; case_bool_decide; try done; apply NoDup_app; (split; [done|]);
      (split; [|apply NoDup_singleton]); intros x Hx ->%list_elem_of_singleton; done.
  - intros. unfold sets_proper, new_error. simpl.
    split; [lia|]. split; [done|]. split; [done|]. split; apply NoDup_singleton.
  - done.
Qed.

End Reachable.

(** ** Keys, projects and occurrences over time *)

Section Monotone.
Context `{Externals}.

Lemma target_key_bound project_str q st :
  ids_ok st →
  (LoggedErrorV2.key (target project_str q st) < next_id (error_stored project_str q st))%nat.
Proof.
  intros [[_ Hb] Hcache]. unfold target. simpl. unfold found, lookup_error.
  destruct (cache_error st !! _) as [cached|] eqn:Hc; simpl.
  - exact (Hcache _ _ Hc).
  - destruct (find_possibility _ _ _ _) as [g|] eqn:Hf; simpl; [|lia].
    apply find_possibility_Some in Hf as [Hin _].
    rewrite Forall_forall in Hb. by apply Hb.
Qed.

Lemma error_stored_ids_ok project_str q st :
  ids_ok st → ids_ok (error_stored project_str q st).
Proof.
  intros Hok. pose proof (target_key_bound project_str q st Hok) as Hlt.
  destruct Hok as [[Hs Hb] Hcache].
  assert (next_id st ≤ next_id (error_stored project_str q st))%nat as Hle.
  { simpl. destruct (found project_str q st); lia. }
  split; [split|].
  - by apply put_error_sorted.
  - apply Forall_put_error; [exact Hlt|].
    eapply Forall_impl; [exact Hb|]. intros x Hx. simpl in Hx. lia.
  - assert (map_Forall (λ _ e, (LoggedErrorV2.key e
                                < next_id (error_stored project_str q st))%nat)
              (cache_error st)) as Hcache'.
    { intros k e Hk. specialize (Hcache k e Hk). simpl in Hcache. lia. }
    change (cache_error (error_stored project_str q st))
      with (match found project_str q st with
            | Some _ => <[cache_key project_str q := target project_str q st]> (cache_error st)
            | None => cache_error st
            end).
    destruct (found project_str q st); [by apply map_Forall_insert_2 | done].
Qed.

Lemma ids_ok_next_id st st' :
  ids_ok st → errors st' = errors st → cache_error st' = cache_error st →
  (next_id st ≤ next_id st')%nat → ids_ok st'.
Proof.
  intros [[Hs Hb] Hcache] He Hc Hle. split; [split|]; rewrite ?He, ?Hc; [done|..].
  - eapply Forall_impl; [exact Hb|]. simpl. intros x Hx. lia.
  - intros k e Hk. specialize (Hcache k e Hk). simpl in *. lia.
Qed.

Lemma putException_ids_ok project_str exception st :
  ids_ok st → ids_ok (putException project_str exception st).2.
Proof.
  intros Hst.
  destruct (putException_cases project_str exception st)
    as [->|[[q ->]|[[q ->]|(q & u & ->)]]]; [done| |by apply error_stored_ids_ok|].
  - destruct (project_got_frame q st) as (He & _ & _ & Hn & _ & Hc & _).
    eapply ids_ok_next_id; [exact Hst|done|done|lia].
  - apply (error_stored_ids_ok project_str q) in Hst.
    eapply ids_ok_next_id; [exact Hst|done|done|simpl; lia].
Qed.

Lemma serve_ids_ok r st : ids_ok st → ids_ok (serve r st).
Proof.
  intros Hst. destruct r as [key body|project_str task|key project minutes now|params
                            |key params|key|is_admin]; simpl.
  - unfold ReportPage_post. case_bool_decide; [done|].
    eapply ids_ok_next_id; [exact Hst|done|done|simpl; lia].
  - destruct (ReportWorker_cases project_str task st) as [->|[exception [->| ->]]];
      [done|by apply putException_ids_ok|].
    apply (putException_ids_ok project_str exception) in Hst.
    eapply ids_ok_next_id; [exact Hst|done|done|simpl; lia].
  - destruct (StatPage_only_projects key project minutes now st)
      as (_ & He & _ & _ & Hn & _ & Hc).
    eapply ids_ok_next_id; [exact Hst|done|done|lia].
  - destruct (ListPage_only_projects params st) as (_ & He & _ & _ & Hn & _ & Hc).
    eapply ids_ok_next_id; [exact Hst|done|done|lia].
  - by rewrite ViewPage_state.
  - unfold ResolvePage_doAuthenticatedGet, gets. rewrite bind_eq. cbv beta iota.
    destruct (get_error key (errors st)) as [e|] eqn:He; [|done].
    apply get_error_Some in He as [Hin _].
    destruct Hst as [[Hs Hb] Hcache]. split; [split|]; simpl.
    + by apply put_error_sorted.
    + apply Forall_put_error; [|done]. rewrite Forall_forall in Hb.
      simpl. by apply (Hb e).
    + by apply map_Forall_delete.
  - destruct is_admin; [|done]. destruct Hst as [_ Hcache].
    split; [split|]; simpl; [constructor|constructor|done].
Qed.

(** X5.  Whatever requests are served, the stored errors stay in key
    order under distinct keys, and no stored error or cached snapshot
    has a key the datastore has yet to hand out: a new error never
    takes the place of another one. *)
Theorem keys_stay_distinct rs st : ids_ok st → ids_ok (serve_all rs st).
Proof.
  unfold serve_all. revert st. induction rs as [|r rs IH]; simpl; intros st Hst; [done|].
  by apply IH, serve_ids_ok.
Qed.

Lemma error_stored_projects project_str q st :
  projects st ⊆ projects (error_stored project_str q st).
Proof.
  simpl. case_bool_decide; [done|]. destruct (found project_str q st); set_solver.
Qed.

Lemma putException_grows project_str exception st :
  projects st ⊆ projects (putException project_str exception st).2
  ∧ (next_id st ≤ next_id (putException project_str exception st).2)%nat
  ∧ instances st `prefix_of` instances (putException project_str exception st).2
  ∧ queue (putException project_str exception st).2 = queue st.
Proof.
  destruct (putException_cases project_str exception st)
    as [->|[[q ->]|[[q ->]|(q & u & ->)]]].
  - done.
  - destruct (project_got_frame q st) as (_ & Hi & Hq & Hn & _ & _ & Hp).
    rewrite Hi, Hq, Hn. done.
  - split; [apply error_stored_projects|]. split; [|done].
    simpl. destruct (found project_str q st); lia.
  - split; [apply error_stored_projects|]. split; [|split; [|done]].
    + simpl. destruct (found project_str q st); lia.
    + simpl. by apply prefix_app_r.
Qed.

Lemma serve_grows r st :
  projects st ⊆ projects (serve r st)
  ∧ (next_id st ≤ next_id (serve r st))%nat
  ∧ (r ≠ GetClear true → instances st `prefix_of` instances (serve r st)).
Proof.
  destruct r as [key body|project_str task|key project minutes now|params
                |key params|key|is_admin]; simpl.
  - unfold ReportPage_post. case_bool_decide; [done|]. simpl. split; [done|]. split; [lia|done].
  - pose proof (ReportWorker_cases project_str task st) as Hw.
    destruct Hw as [->|[exception [->| ->]]]; [done|..];
      destruct (putException_grows project_str exception st) as (Hp & Hn & Hi & _); done.
  - destruct (StatPage_only_projects key project minutes now st)
      as (Hp & _ & Hi & _ & Hn & _ & _). rewrite Hi, Hn. done.
  - destruct (ListPage_only_projects params st) as (Hp & _ & Hi & _ & Hn & _ & _).
    rewrite Hi, Hn. done.
  - by rewrite ViewPage_state.
  - unfold ResolvePage_doAuthenticatedGet, gets. rewrite bind_eq. cbv beta iota.
    by destruct (get_error key (errors st)) as [e|].
  - destruct is_admin; [|done]. simpl. split; [done|]. split; [done|]. by intros [].
Qed.

(** X6.  No request deletes a [Project] entity or takes back an id:
    after any requests, also after the database was cleared, the
    projects of before are still there and the next id is not
    smaller. *)
Theorem projects_and_ids_only_grow rs st :
  projects st ⊆ projects (serve_all rs st)
  ∧ (next_id st ≤ next_id (serve_all rs st))%nat.
Proof.
  unfold serve_all. revert st. induction rs as [|r rs IH]; simpl; intros st; [done|].
  destruct (serve_grows r st) as (Hp & Hn & _). destruct (IH (serve r st)) as [Hp' Hn'].
  split; [set_solver | lia].
Qed.

(** X7.  Occurrences are only ever added at the end: as long as no
    administrator clears the database, the stored instances of before
    are a prefix, unchanged, of the stored instances after. *)
Theorem instances_only_appended rs st :
  GetClear true ∉ rs → instances st `prefix_of` instances (serve_all rs st).
Proof.
  unfold serve_all. revert st. induction rs as [|r rs IH]; simpl; intros st Hno; [done|].
  apply not_elem_of_cons in Hno as [Hr Hrs].
  destruct (serve_grows r st) as (_ & _ & Hi).
  etrans; [apply Hi; congruence | by apply IH].
Qed.

End Monotone.

(** ** More on what [putException] writes *)

Section MoreIngestion.
Context `{Externals}.







(** X10.  Memcache is written when an error is updated and only then.
    For a report whose required keys read well: if
    [getAggregatedError] finds an error, memcache afterwards holds,
    under the key of the call, the very error that is stored, and its
    other entries are as before; if it finds none, memcache is left as
    it was, so the error just created is not cached. *)
Theorem cache_written_on_update_only project_str exception q st :
  required exception = Some q →
  let st' := (putException project_str exception st).2 in
  match found project_str q st with
  | Some g =>
      cache_error st' !! cache_key project_str q
      = get_error (LoggedErrorV2.key g) (errors st')
      ∧ is_Some (cache_error st' !! cache_key project_str q)
      ∧ ∀ k, k ≠ cache_key project_str q → cache_error st' !! k = cache_error st !! k
  | None => cache_error st' = cache_error st
  end.
Proof.
  intros Hq st'.
  destruct (decide (storable project_str q st)) as [Hs|Hs]; last first.
  { unfold st'. rewrite (putException_refused _ _ q) by done.
    destruct (found project_str q st) as [g|] eqn:Hf;
      [by apply found_storable in Hf | apply project_got_frame]. }
  assert (cache_error st' = cache_error (error_stored project_str q st)
          ∧ errors st' = errors (error_stored project_str q st)) as [Hc He].
  { unfold st'. destruct (affected_user exception) as [u|] eqn:Hu.
    - by rewrite (putException_valid _ _ q u).
    - by destruct (putException_bad_user project_str exception q st) as [x ->]. }
  rewrite Hc, He. simpl. unfold target.
  destruct (found project_str q st) as [g|]; [|done].
  rewrite lookup_insert_eq.
  split; [symmetry; apply (get_error_put_eq (update_error g _ _ _ _ _))|].
  split; [done|]. intros k Hk. by rewrite lookup_insert_ne.
Qed.

End MoreIngestion.

(** ** Resolving an error *)

Section Resolving.
Context `{Externals}.

(** X11.  [ResolvePage] for a key without error raises and changes
    nothing.  For the key of a stored error it answers [ok]; the error
    is then stored inactive and otherwise as it was; every other error,
    the instances, the projects and the queue are untouched; and
    memcache has lost the entry, if any, under the project's name, a
    bar and the error's hash, and no other. *)
Theorem resolve_deactivates key st :
  match get_error key (errors st) with
  | None => ResolvePage_doAuthenticatedGet key st = (Raises AttributeError, st)
  | Some g =>
      ∃ st' g',
        ResolvePage_doAuthenticatedGet key st = (Returns (mkResponse 200 "ok"), st')
        ∧ get_error key (errors st') = Some g'
        ∧ LoggedErrorV2.active g' = false
        ∧ same_but_active g g'
        ∧ (∀ k, k ≠ key → get_error k (errors st') = get_error k (errors st))
        ∧ instances st' = instances st
        ∧ projects st' = projects st
        ∧ queue st' = queue st
        ∧ next_id st' = next_id st
        ∧ cache_error st'
          = delete (LoggedErrorV2.parent_key g +:+ "|" +:+ LoggedErrorV2.hash g)
              (cache_error st)
  end.
Proof.
  unfold ResolvePage_doAuthenticatedGet, gets. rewrite bind_eq. cbv beta iota.
  destruct (get_error key (errors st)) as [g|] eqn:Hg; [|done].
  pose proof (get_error_Some _ _ _ Hg) as [_ Hk].
  unfold db_put_error, memcache_delete, modify, mret, DB_ret. rewrite !bind_eq. cbv beta iota.
  eexists _, _. split; [reflexivity|]. simpl.
  split; [rewrite <- Hk at 1; apply (get_error_put_eq (LoggedErrorV2.mk _ _ _ _ _ _ _ _ _ _ _ _ _))|].
  split; [done|]. split; [by repeat split|].
  split; [|done]. intros k Hne. apply get_error_put_ne. simpl. congruence.
Qed.

(** X12.  Resolving twice is resolving once: the second call answers
    as the first and leaves the state the first left. *)
Theorem resolve_idempotent key st :
  ResolvePage_doAuthenticatedGet key (ResolvePage_doAuthenticatedGet key st).2
  = ResolvePage_doAuthenticatedGet key st.
Proof.
  unfold ResolvePage_doAuthenticatedGet, gets. rewrite !bind_eq. cbv beta iota.
  destruct (get_error key (errors st)) as [g|] eqn:Hg; simpl; [|by rewrite Hg].
  pose proof (get_error_Some _ _ _ Hg) as [_ Hk].
  unfold db_put_error, memcache_delete, modify, mret, DB_ret. rewrite !bind_eq. simpl.
  match goal with |- context [put_error ?e (errors st)] => set (g' := e) end.
  assert (get_error key (put_error g' (errors st)) = Some g') as ->.
  { rewrite <- Hk. apply (get_error_put_eq g'). }
  simpl. fold g'. unfold mbind, DB_bind. simpl.
  rewrite put_error_put_error by done. by rewrite delete_delete_eq.
Qed.

End Resolving.

(** ** Pages of the list *)

Section Paging.
Context `{Externals}.

Lemma ordered_listed filters st1 st :
  errors st1 = errors st →
  sort_desc LoggedErrorV2.lastOccurrence
    (match filters !! "project" with
     | Some p => filter (λ e, LoggedErrorV2.parent_key e = p)
                   (filter (λ e, LoggedErrorV2.active e = true) (errors st1))
     | None => filter (λ e, LoggedErrorV2.active e = true) (errors st1)
     end)
  = sort_desc LoggedErrorV2.lastOccurrence (filter (listed filters) (errors st)).
Proof.
  intros ->. f_equal.
  destruct (filters !! "project") as [p|] eqn:Hp; rewrite ?list_filter_filter;
    apply list_filter_iff; intros e; unfold listed; rewrite Hp; naive_solver.
Qed.

Lemma instance_filters_int (filters : gmap string string) :
  (∀ v, filters !! "affectedUser" = Some v → is_Some (int_of_str v)) →
  ∀ v, filter (λ kv : string * string, kv.1 ∈ INSTANCE_FILTERS) filters !! "affectedUser"
       = Some v → is_Some (int_of_str v).
Proof.
  intros Hint v. rewrite instance_filters_lookup; [apply Hint|].
  unfold INSTANCE_FILTERS. set_solver.
Qed.

Lemma passes_fetched (filters : gmap string string) st1 st :
  instances st1 = instances st →
  filter (passes (filter (λ kv : string * string, kv.1 ∈ INSTANCE_FILTERS) filters))
    (instances st1)
  = filter (passes filters) (instances st).
Proof.
  intros ->. apply list_filter_iff. intros i. apply passes_instance_filters.
Qed.

(** Every page is cut from [full_listing]. *)
Lemma getErrors_run filters limit offset st :
  (∀ v, filters !! "affectedUser" = Some v → is_Some (int_of_str v)) →
  getErrors filters limit offset st
  = (Returns (take limit (drop offset (full_listing filters st))),
     (getErrors filters limit offset st).2).
Proof.
  intros Hint.
  destruct (getErrors filters limit offset st) as [out st2] eqn:Hrun. simpl. f_equal.
  unfold getErrors in Hrun. rewrite bind_eq in Hrun.
  assert (∃ st1,
            (match filters !! "project" with
             | Some value => p ← getProject value; mret (Some p)
             | None => mret None
             end : DB (option string)) st = (Returns (filters !! "project"), st1)
            ∧ errors st1 = errors st ∧ instances st1 = instances st)
    as (st1 & Hproj & He1 & Hi1).
  { destruct (filters !! "project") as [p|]; [|by exists st].
    destruct (getProject_reads p st) as (st1 & Hg & ? & ?).
    exists st1. rewrite bind_eq, Hg. done. }
  rewrite Hproj in Hrun. cbv beta iota in Hrun.
  unfold gets in Hrun. rewrite bind_eq in Hrun. cbv beta iota in Hrun.
  rewrite (ordered_listed filters st1 st He1) in Hrun.
  unfold full_listing.
  destruct (bool_decide (filter (λ kv : string * string, kv.1 ∈ INSTANCE_FILTERS) filters = ∅))
    eqn:Hempty.
  - by injection Hrun as <- _.
  - apply bool_decide_eq_false in Hempty.
    destruct (bool_decide (limit = 0 ∧ offset = 0)%nat) eqn:Hzero.
    + apply bool_decide_eq_true in Hzero as [-> ->]. by injection Hrun as <- _.
    + unfold filterErrors in Hrun.
      rewrite !bind_eq, getInstances_passes in Hrun
        by (done || by apply instance_filters_int).
      cbv beta iota in Hrun. unfold mret, DB_ret in Hrun.
      rewrite (passes_fetched filters st1 st Hi1) in Hrun. by injection Hrun as <- _.
Qed.

End Paging.

Section Listings.
Context `{Externals}.

Lemma sorted_keys_NoDup (l : list Error) :
  StronglySorted lt (LoggedErrorV2.key <$> l) → NoDup (LoggedErrorV2.key <$> l).
Proof.
  induction l as [|x l IH]; simpl; intros Hs; [constructor|].
  apply StronglySorted_inv in Hs as [Hs Hx]. constructor; [|by apply IH].
  rewrite Forall_forall in Hx. intros Hin. specialize (Hx _ Hin). lia.
Qed.

Lemma omap_keys_sublist (f : Error → option Error) (l : list Error) :
  (∀ x y, f x = Some y → LoggedErrorV2.key y = LoggedErrorV2.key x) →
  (LoggedErrorV2.key <$> omap f l) `sublist_of` (LoggedErrorV2.key <$> l).
Proof.
  intros Hf. induction l as [|x l IH]; simpl; [done|].
  destruct (f x) as [y|] eqn:Hy; simpl.
  - rewrite (Hf x y Hy). by constructor.
  - by constructor.
Qed.

Lemma filter_keys_sublist (P : Error → Prop) `{!∀ x, Decision (P x)} (l : list Error) :
  (LoggedErrorV2.key <$> filter P l) `sublist_of` (LoggedErrorV2.key <$> l).
Proof.
  induction l as [|x l IH]; simpl; [done|].
  rewrite filter_cons. case_decide; simpl; by constructor.
Qed.

(** What [full_listing] is made of. *)
Lemma full_listing_elem filters st v :
  v ∈ full_listing filters st →
  ∃ e, e ∈ errors st ∧ listed filters e ∧ LoggedErrorV2.key v = LoggedErrorV2.key e
       ∧ LoggedErrorV2.active v = true.
Proof.
  unfold full_listing. case_bool_decide.
  - intros Hin. rewrite sort_desc_perm in Hin.
    rewrite list_elem_of_filter in Hin. destruct Hin as [Hl Hin].
    exists v. split_and!; try done. by destruct Hl.
  - intros (e & He & Hv)%list_elem_of_omap.
    rewrite sort_desc_perm, list_elem_of_filter in He. destruct He as [Hl Hin].
    exists e.
    match type of Hv with context [match ?b with _ => _ end] =>
      destruct b as [|first bucket] end; [done|].
    injection Hv as <-.
    split_and!; try done. simpl. by destruct Hl.
Qed.

Lemma full_listing_NoDup filters st :
  keys_ok st → NoDup (LoggedErrorV2.key <$> full_listing filters st).
Proof.
  intros [Hs _]. apply sorted_keys_NoDup in Hs.
  assert (NoDup (LoggedErrorV2.key
                 <$> sort_desc LoggedErrorV2.lastOccurrence
                       (filter (listed filters) (errors st)))) as Hord.
  { rewrite sort_desc_perm. eapply sublist_NoDup; [done | apply filter_keys_sublist]. }
  unfold full_listing. case_bool_decide; [done|].
  eapply sublist_NoDup; [exact Hord | apply omap_keys_sublist].
  intros x y Hy.
  match type of Hy with context [match ?b with _ => _ end] =>
    destruct b as [|first bucket] end; [done|].
  by injection Hy as <-.
Qed.

Lemma no_instance_filters (filters : gmap string string) :
  filter (λ kv : string * string, kv.1 ∈ INSTANCE_FILTERS) filters = ∅
  ↔ ∀ k, k ∈ INSTANCE_FILTERS → filters !! k = None.
Proof.
  rewrite map_empty. split.
  - intros Hall k Hk. by rewrite <- (instance_filters_lookup filters k Hk).
  - intros Hall k. apply map_lookup_filter_None.
    destruct (decide (k ∈ INSTANCE_FILTERS)) as [Hk|Hk]; [left; by apply Hall|].
    right. intros v _. exact Hk.
Qed.

(** X13.  When the [affectedUser] filter, if given, is an integer, all
    calls of [getErrors] with the same filters on the same state cut
    their pages from one sequence, and leave the same state.  With the
    stored keys in order, no error comes twice in that sequence, so
    pages that do not overlap share no error; and every entry stands
    for a stored error that is active. *)
Theorem pages_of_one_listing filters st :
  (∀ v, filters !! "affectedUser" = Some v → is_Some (int_of_str v)) →
  keys_ok st →
  ∃ all st',
    (∀ limit offset,
       getErrors filters limit offset st = (Returns (take limit (drop offset all)), st'))
    ∧ NoDup (LoggedErrorV2.key <$> all)
    ∧ ∀ v, v ∈ all →
           ∃ e, e ∈ errors st ∧ LoggedErrorV2.active e = true
                ∧ LoggedErrorV2.key v = LoggedErrorV2.key e.
Proof.
  intros Hint Hok.
  exists (full_listing filters st),
    (match filters !! "project" with Some value => (getProject value st).2 | None => st end).
  split; [|split].
  - intros limit offset. rewrite getErrors_run by done. by rewrite getErrors_state.
  - by apply full_listing_NoDup.
  - intros v Hv. apply full_listing_elem in Hv as (e & He & [Ha _] & Hk & _). eauto.
Qed.

(** X14.  Without occurrence-level filter [getErrors] does not raise:
    it returns, of the active errors (of the project, when one is asked
    for) taken latest first, the [limit] that follow the first
    [offset], as they are stored. *)
Theorem unfiltered_list filters limit offset st :
  (∀ k, k ∈ INSTANCE_FILTERS → filters !! k = None) →
  ∃ ordered st',
    getErrors filters limit offset st = (Returns (take limit (drop offset ordered)), st')
    ∧ ordered ≡ₚ filter (listed filters) (errors st)
    ∧ StronglySorted
        (λ a b, LoggedErrorV2.lastOccurrence b ≤ LoggedErrorV2.lastOccurrence a) ordered.
Proof.
  intros Hno. apply no_instance_filters in Hno as Hempty.
  exists (sort_desc LoggedErrorV2.lastOccurrence (filter (listed filters) (errors st))),
    (getErrors filters limit offset st).2.
  split; [|split; [apply sort_desc_perm | apply sort_desc_sorted]].
  rewrite getErrors_run.
  - unfold full_listing. by rewrite bool_decide_true.
  - intros v Hv. rewrite Hno in Hv; [done|]. unfold INSTANCE_FILTERS. set_solver.
Qed.

Lemma apply_filters_bad_user (filters : gmap string string) v query st :
  filters !! "affectedUser" = Some v → int_of_str v = None →
  apply_filters INSTANCE_FILTERS filters query st = (Raises ValueError, st).
Proof.
  intros Hu Hv. unfold INSTANCE_FILTERS, apply_filters.
  destruct (filters !! "environment") as [ve|];
    destruct (filters !! "server") as [vs|]; rewrite Hu;
    unfold filterData; simpl; rewrite Hv; unfold mret, DB_ret, mbind, DB_bind; done.
Qed.

Lemma getErrors_bad_user filters v limit offset st :
  filters !! "affectedUser" = Some v → int_of_str v = None →
  getErrors filters limit offset st
  = (if bool_decide (limit = 0 ∧ offset = 0)%nat then Returns [] else Raises ValueError,
     (getErrors filters limit offset st).2).
Proof.
  intros Hu Hv.
  assert (filter (λ kv : string * string, kv.1 ∈ INSTANCE_FILTERS) filters ≠ ∅) as Hne.
  { rewrite no_instance_filters. intros Hall. rewrite Hall in Hu; [done|].
    unfold INSTANCE_FILTERS. set_solver. }
  destruct (getErrors filters limit offset st) as [out st2] eqn:Hrun. simpl. f_equal.
  unfold getErrors in Hrun. rewrite bind_eq in Hrun.
  destruct ((match filters !! "project" with
             | Some value => p ← getProject value; mret (Some p)
             | None => mret None
             end : DB (option string)) st) as [[project|x] st1] eqn:Hproj.
  2: { destruct (filters !! "project") as [p|]; [|done].
       rewrite bind_eq, getProject_run in Hproj. done. }
  cbv beta iota in Hrun. unfold gets in Hrun. rewrite bind_eq in Hrun.
  cbv beta iota in Hrun.
  rewrite (bool_decide_false _ Hne) in Hrun.
  case_bool_decide; [by injection Hrun as <- _|].
  unfold filterErrors, getInstances, gets in Hrun. rewrite !bind_eq in Hrun.
  cbv beta iota in Hrun. rewrite (bool_decide_false _ Hne) in Hrun.
  rewrite ?bind_eq, (apply_filters_bad_user _ v) in Hrun; [by injection Hrun as <- _| |done].
  rewrite instance_filters_lookup; [done|]. unfold INSTANCE_FILTERS. set_solver.
Qed.

(** X15.  An [affectedUser] filter that is not an integer makes
    [getErrors] raise [ValueError], after the project asked for, if
    any, was got or inserted; but for limit 0 and offset 0, where the
    filter is never looked at and the answer is the empty list. *)
Theorem list_rejects_bad_user_filter filters v limit offset st :
  filters !! "affectedUser" = Some v → int_of_str v = None →
  getErrors filters limit offset st
  = (if bool_decide (limit = 0 ∧ offset = 0)%nat then Returns [] else Raises ValueError,
     match filters !! "project" with
     | Some value => (getProject value st).2
     | None => st
     end).
Proof.
  intros Hu Hv. rewrite (getErrors_bad_user filters v) by done. by rewrite getErrors_state.
Qed.

Lemma getErrors_views filters limit offset st views st' v :
  getErrors filters limit offset st = (Returns views, st') → v ∈ views →
  ∃ e, e ∈ errors st ∧ LoggedErrorV2.active e = true
       ∧ LoggedErrorV2.key v = LoggedErrorV2.key e.
Proof.
  intros Hrun Hv.
  destruct (filters !! "affectedUser") as [u|] eqn:Hu.
  - destruct (int_of_str u) as [n|] eqn:Hn.
    + rewrite getErrors_run in Hrun
        by (intros ? Heq; rewrite Hu in Heq; injection Heq as <-; by rewrite Hn).
      injection Hrun as <- _.
      apply subseteq_take, subseteq_drop in Hv.
      apply full_listing_elem in Hv as (e & He & [Ha _] & Hk & _). eauto.
    + rewrite (getErrors_bad_user filters u) in Hrun by done.
      case_bool_decide; [|done]. injection Hrun as <- _. by apply elem_of_nil in Hv.
  - rewrite getErrors_run in Hrun by (intros ? Heq; by rewrite Hu in Heq).
    injection Hrun as <- _.
    apply subseteq_take, subseteq_drop in Hv.
    apply full_listing_elem in Hv as (e & He & [Ha _] & Hk & _). eauto.
Qed.

(** X16.  A resolved error is not listed any more: with the stored keys
    in order, after [ResolvePage] for the key of a stored error, no call
    of [getErrors], whatever its filters and page, returns an entry with
    that key. *)
Theorem resolved_error_not_listed key g st filters limit offset views st' v :
  keys_ok st → get_error key (errors st) = Some g →
  getErrors filters limit offset (ResolvePage_doAuthenticatedGet key st).2
  = (Returns views, st') →
  v ∈ views → LoggedErrorV2.key v ≠ key.
Proof.
  intros [Hs _] Hg Hrun Hv Hkey.
  apply (getErrors_views _ _ _ _ _ _ v) in Hrun as (e & He & Ha & Hk); [|done].
  pose proof (get_error_Some _ _ _ Hg) as [_ Hgk].
  unfold ResolvePage_doAuthenticatedGet, gets in He. rewrite bind_eq in He.
  cbv beta iota in He. rewrite Hg in He. simpl in He.
  match type of He with context [put_error ?x (errors st)] => set (g' := x) in * end.
  assert (e = g') as ->.
  { eapply sorted_keys_inj; [by apply (put_error_sorted g')|done|apply put_error_elem_of|].
    simpl. congruence. }
  done.
Qed.

End Listings.

(** ** The list page and the view page *)

Section ListAndView.
Context `{Externals}.

(** The whole listing has as many entries as there are errors to
    list. *)
Lemma full_listing_length filters st :
  length (full_listing filters st) = listed_count filters st.
Proof.
  unfold full_listing, listed_count. case_bool_decide.
  - apply Permutation_length, sort_desc_perm.
  - set (ordered := sort_desc LoggedErrorV2.lastOccurrence
                      (filter (listed filters) (errors st))).
    etrans.
    { eapply Forall2_length.
      apply (Forall2_omap_filter (λ _ _, True) _ (λ e, matching filters e st ≠ []) ordered).
      intros e. pose proof (bucket_matching filters e st) as Hb.
      destruct (filter _ (sort_desc _ _)) as [|first bucket].
      - intros Hhits. by apply Permutation_nil_l in Hb.
      - split; [|done]. intros Hhits. rewrite Hhits in Hb. by apply Permutation_nil_r in Hb. }
    unfold ordered.
    rewrite (Permutation_length
               (filter_Permutation _ _ _ (sort_desc_perm LoggedErrorV2.lastOccurrence _))).
    rewrite list_filter_filter. f_equal. apply list_filter_iff. naive_solver.
Qed.

(** X17.  [ListPage] for page [p], not negative and with an offset the
    datastore takes in 32 bits, with an integer as [affectedUser]
    filter if there is one: the template gets the first 50 of the 51
    entries asked from [getErrors] at offset [50 p], which are all the
    entries from there on or 50 of them, the number of the next page,
    and [hasMore] set exactly when more than [50 p + 50] errors are to
    be listed. *)
Theorem list_page_has_more params p st :
  match request_get "page" params with
  | Some text => int_of_str text = Some p
  | None => p = 0
  end →
  0 ≤ p → 50 * p + 51 < 2 ^ 31 →
  (∀ v, getFilters params !! "affectedUser" = Some v → is_Some (int_of_str v)) →
  let filters := getFilters params in
  let offset := (Z.to_nat p * 50)%nat in
  ∃ views st',
    getErrors filters 51 offset st = (Returns views, st')
    ∧ ListPage_doAuthenticatedGet params st
      = (Returns {| list_filters := filters;
                    list_errors := take 50 views;
                    list_hasMore := bool_decide (offset + 50 < listed_count filters st)%nat;
                    list_nextPage := p + 1 |}, st')
    ∧ length (take 50 views) = (50 `min` (listed_count filters st - offset))%nat.
Proof.
  intros Hpage Hp _ Hint filters offset.
  pose proof (getErrors_run filters 51 offset st Hint) as Hrun.
  pose proof (full_listing_length filters st) as Hlen.
  set (all := full_listing filters st) in *.
  exists (take 51 (drop offset all)), (getErrors filters 51 offset st).2.
  split; [done|]. split.
  - unfold ListPage_doAuthenticatedGet. rewrite bind_eq.
    assert ((match request_get "page" params with
             | Some text => lift (int_of_json (JStr text))
             | None => mret 0
             end : DB Z) st = (Returns p, st)) as ->.
    { destruct (request_get "page" params) as [text|]; [|by subst].
      unfold lift. simpl. by rewrite Hpage. }
    rewrite bind_eq, bool_decide_false by lia.
    fold filters offset. rewrite Hrun. unfold mret, DB_ret. do 2 f_equal.
    by rewrite (bool_decide_ext _ (offset + 50 < listed_count filters st)%nat)
      by (rewrite length_take, length_drop; lia).
  - rewrite take_take, length_take, length_drop. lia.
Qed.

(** X18.  A page parameter that [int] rejects makes [ListPage] raise
    [ValueError] before it queries anything: the state is as it was,
    also when a project filter is given.  A negative page makes it
    raise too, but only once the query has got or inserted the project
    asked for: [ValueError] of [islice] when there is an
    occurrence-level filter, the exception of [fetch] when there is
    none, which is the datastore's [BadArgumentError]. *)
Theorem list_page_rejects_bad_page params text st :
  request_get "page" params = Some text →
  match int_of_str text with
  | None => ListPage_doAuthenticatedGet params st = (Raises ValueError, st)
  | Some p =>
      p < 0 →
      ListPage_doAuthenticatedGet params st
      = (Raises (if bool_decide
                      (filter (λ kv : string * string, kv.1 ∈ INSTANCE_FILTERS)
                         (getFilters params) = ∅)
                 then fetch_error else ValueError),
         match getFilters params !! "project" with
         | Some value => (getProject value st).2
         | None => st
         end)
  end.
Proof.
  intros Hpage. unfold ListPage_doAuthenticatedGet. rewrite bind_eq, Hpage.
  unfold lift. simpl. destruct (int_of_str text) as [p|]; [|done].
  intros Hp. rewrite bind_eq, bool_decide_true by done. rewrite bind_eq.
  pose proof (getErrors_state (getFilters params) 0 0 st) as Hst.
  assert (∃ views, (getErrors (getFilters params) 0 0 st).1 = Returns views) as [views Hv].
  { destruct (getFilters params !! "affectedUser") as [u|] eqn:Hu.
    - destruct (int_of_str u) as [n|] eqn:Hn.
      + rewrite getErrors_run
          by (intros ? Heq; rewrite Hu in Heq; injection Heq as <-; by rewrite Hn). eauto.
      + rewrite (getErrors_bad_user _ u) by done. rewrite bool_decide_true by done. eauto.
    - rewrite getErrors_run by (intros ? Heq; by rewrite Hu in Heq). eauto. }
  destruct (getErrors (getFilters params) 0 0 st) as [out st']. simpl in *. by subst.
Qed.

Lemma getInstances_run filters parent st :
  (∀ v, filters !! "affectedUser" = Some v → is_Some (int_of_str v)) →
  getInstances filters parent st
  = (Returns
       (sort_desc LoggedErrorInstanceV2.date
          (filter (passes filters)
             (match parent with
              | Some k => filter (λ i, LoggedErrorInstanceV2.parent_key i = k) (instances st)
              | None => instances st
              end))), st).
Proof.
  intros Hint. unfold getInstances, gets. rewrite bind_eq. cbv beta iota.
  case_bool_decide as Hempty.
  - rewrite bind_eq. unfold mret, DB_ret. do 3 f_equal. symmetry. apply filter_all.
    intros i. unfold passes. subst. by rewrite !lookup_empty.
  - by rewrite bind_eq, apply_filters_passes.
Qed.

(** X19.  [ViewPage] never writes.  For a key without error it raises.
    For the key of a stored error, and filters whose [affectedUser], if
    given, is an integer, it hands the template that error and, of the
    instances under it that pass the filters, the 100 latest, latest
    first. *)
Theorem view_page_instances key params st :
  (∀ v, getFilters params !! "affectedUser" = Some v → is_Some (int_of_str v)) →
  match get_error key (errors st) with
  | None => ViewPage_doAuthenticatedGet key params st = (Raises AttributeError, st)
  | Some error =>
      ∃ found,
        ViewPage_doAuthenticatedGet key params st = (Returns (error, take 100 found), st)
        ∧ found ≡ₚ filter (λ i, LoggedErrorInstanceV2.parent_key i = key
                               ∧ passes (getFilters params) i) (instances st)
        ∧ StronglySorted
            (λ a b, LoggedErrorInstanceV2.date b ≤ LoggedErrorInstanceV2.date a) found
  end.
Proof.
  intros Hint. unfold ViewPage_doAuthenticatedGet, gets. rewrite bind_eq. cbv beta iota.
  destruct (get_error key (errors st)) as [error|] eqn:He; [|done].
  pose proof (get_error_Some _ _ _ He) as [_ Hk].
  rewrite bind_eq, getInstances_run by done. eexists. split; [reflexivity|].
  split; [|apply sort_desc_sorted].
  rewrite sort_desc_perm, list_filter_filter, Hk.
  by rewrite (list_filter_iff _ (λ i, LoggedErrorInstanceV2.parent_key i = key
                                     ∧ passes (getFilters params) i)) by naive_solver.
Qed.

End ListAndView.

(** ** Requests one after the other *)

Section Sequences.
Context `{Externals}.



Lemma find_possibility_put_new project errorHash backtraceText e stored :
  find_possibility project errorHash backtraceText stored = None →
  candidate project errorHash e →
  normalizeBacktrace (LoggedErrorV2.backtrace e) = normalizeBacktrace backtraceText →
  find_possibility project errorHash backtraceText (put_error e stored) = Some e.
Proof.
  unfold find_possibility. intros Hnone Hcand Hnorm.
  fold (candidate project errorHash) in *.
  induction stored as [|y l IH]; simpl.
  - rewrite filter_cons_True, filter_nil by done. simpl. by rewrite bool_decide_true.
  - rewrite filter_cons in Hnone. repeat case_bool_decide.
    + rewrite filter_cons_True by done. simpl. by rewrite bool_decide_true.
    + rewrite filter_cons_True by done. simpl. by rewrite bool_decide_true.
    + rewrite filter_cons. destruct (decide (candidate project errorHash y)); [|by apply IH].
      simpl in *. destruct (bool_decide (normalizeBacktrace _ = _)); [done|]. by apply IH.
Qed.

(** What a second call finds once a first has written the report's
    error: that error. *)
Lemma found_after_error_stored project_str q st :
  found project_str q (error_stored project_str q st) = Some (target project_str q st).
Proof.
  unfold found at 1, lookup_error.
  change (errors (error_stored project_str q st))
    with (put_error (target project_str q st) (errors st)).
  destruct (found project_str q st) as [g|] eqn:Hf.
  - assert (cache_error (error_stored project_str q st)
            = <[cache_key project_str q := target project_str q st]> (cache_error st)) as ->
      by (unfold error_stored; simpl; by rewrite Hf).
    by rewrite lookup_insert_eq.
  - assert (cache_error (error_stored project_str q st) = cache_error st) as ->
      by (unfold error_stored; simpl; by rewrite Hf).
    assert (target project_str q st
            = new_error (next_id st) (r_project q) (r_environment q) (r_server q)
                (r_backtrace q) (r_type q) (generateHash (r_type q) (r_backtrace q))
                (r_message q) (r_timestamp q)) as Ht
      by (unfold target; by rewrite Hf).
    unfold found, lookup_error in Hf.
    destruct (cache_error st !! cache_key project_str q) as [c|] eqn:Hc; [done|].
    rewrite ?Hc, Ht.
    apply find_possibility_put_new; [done|done|done].
Qed.

(** X22.  A queued report that reads well, with an environment
    [str()] converts, but whose [userId] is rejected by [int] is never
    done with: each delivery to [ReportWorker.post] raises, leaves the
    task in the queue, stores no instance, and writes the report's
    error again, created or updated.  The text of the [Project] entity
    may differ between the deliveries; when it is the same, the second
    delivery updates the error of the first and counts it once more. *)
Theorem rejected_user_id_counted_each_delivery
    project_str1 project_str2 task payload exception q st :
  queue st !! task = Some payload →
  json_loads payload = Some exception →
  required exception = Some q → affected_user exception = None →
  Py.isascii (r_environment q) = true →
  ∃ x1 x2 st1 st2 g1 g2,
    ReportWorker_post project_str1 task st = (Raises x1, st1)
    ∧ ReportWorker_post project_str2 task st1 = (Raises x2, st2)
    ∧ st1 = error_stored project_str1 q st
    ∧ st2 = error_stored project_str2 q st1
    ∧ queue st2 = queue st
    ∧ instances st2 = instances st
    ∧ get_error (LoggedErrorV2.key g1) (errors st1) = Some g1
    ∧ get_error (LoggedErrorV2.key g2) (errors st2) = Some g2
    ∧ (project_str2 = project_str1 →
       LoggedErrorV2.key g2 = LoggedErrorV2.key g1
       ∧ LoggedErrorV2.count g2 = LoggedErrorV2.count g1 + 1).
Proof.
  intros Htask Hbody Hq Hu Hascii.
  assert (∀ p s, queue s !! task = Some payload →
            ∃ x, ReportWorker_post p task s = (Raises x, error_stored p q s)) as Hrun.
  { intros p s Hs. destruct (putException_bad_user p exception q s) as [x Hx];
      [done|done|by right|].
    exists x. unfold ReportWorker_post, gets. rewrite bind_eq. cbv beta iota.
    rewrite Hs, Hbody. rewrite bind_eq. unfold mret at 1, DB_ret at 1. cbv beta iota.
    by rewrite bind_eq, Hx. }
  destruct (Hrun project_str1 st Htask) as [x1 Hx1].
  destruct (Hrun project_str2 (error_stored project_str1 q st) Htask) as [x2 Hx2].
  exists x1, x2, (error_stored project_str1 q st),
    (error_stored project_str2 q (error_stored project_str1 q st)),
    (target project_str1 q st), (target project_str2 q (error_stored project_str1 q st)).
  split; [done|]. split; [done|]. split; [done|]. split; [done|].
  split; [done|]. split; [done|].
  split; [apply get_error_put_eq|]. split; [apply get_error_put_eq|].
  intros ->. unfold target at 1 3. by rewrite found_after_error_stored.
Qed.


End Sequences.

(** ** Statistics and the project cache *)

Section StatsAndCache.
Context `{Externals}.

Lemma length_filter_impl {A} (P Q : A → Prop) `{!∀ x, Decision (P x)} `{!∀ x, Decision (Q x)}
    (l : list A) :
  (∀ x, P x → Q x) → (length (filter P l) ≤ length (filter Q l))%nat.
Proof.
  intros HPQ. induction l as [|x l IH]; [done|].
  rewrite !filter_cons. destruct (decide (P x)) as [HP|].
  - rewrite decide_True by auto. simpl. lia.
  - destruct (decide (Q x)); simpl; lia.
Qed.

(** X24.  The loop of [StatPage.get] leaves the state as it is.  For
    two windows that are integers and in range, the second at least as
    long as the first, it returns two counts and the second is at least
    the first, for one project as for all: a wider window never counts
    fewer occurrences.  For a window that is an integer out of range,
    it raises [OverflowError]. *)
Theorem wider_window_counts_more project now s1 s2 m1 m2 st :
  int_of_str s1 = Some m1 → int_of_str s2 = Some m2 → m1 ≤ m2 →
  (window_in_range now m1 → window_in_range now m2 →
   ∃ c1 c2,
     stat_counts project now [s1; s2] st = (Returns [c1; c2], st) ∧ (c1 ≤ c2)%nat)
  ∧ (¬ window_in_range now m1 →
     stat_counts project now [s1; s2] st = (Raises OverflowError, st)).
Proof.
  intros H1 H2 Hle.
  unfold stat_counts, gets, lift. rewrite !bind_eq. cbv beta iota.
  unfold int_of_json. rewrite H1. cbv beta iota. rewrite !bind_eq.
  unfold minutes_before. split.
  - intros Hw1 Hw2. rewrite (bool_decide_true _ Hw1). cbv beta iota.
    rewrite !bind_eq. cbv beta iota. rewrite H2. cbv beta iota. rewrite !bind_eq.
    rewrite (bool_decide_true _ Hw2). cbv beta iota. rewrite !bind_eq.
    unfold mret, DB_ret. cbv beta iota.
    eexists _, _. split; [reflexivity|].
    apply Nat.min_le_compat_r, length_filter_impl. intros i. lia.
  - intros Hw1. by rewrite (bool_decide_false _ Hw1).
Qed.

Lemma putException_cache_project project_str exception st :
  cache_project (putException project_str exception st).2 = cache_project st.
Proof.
  destruct (putException_cases project_str exception st)
    as [->|[[q ->]|[[q ->]|(q & u & ->)]]]; try done.
  apply project_got_frame.
Qed.

Lemma serve_cache_project r st : cache_project (serve r st) = cache_project st.
Proof.
  destruct r as [key body|project_str task|key project minutes now|params
                |key params|key|is_admin]; simpl.
  - unfold ReportPage_post. by case_bool_decide.
  - destruct (ReportWorker_cases project_str task st) as [->|[exception [->| ->]]];
      [done|apply putException_cache_project|].
    simpl. apply putException_cache_project.
  - by destruct (StatPage_only_projects key project minutes now st)
      as (_ & _ & _ & _ & _ & Hc & _).
  - by destruct (ListPage_only_projects params st) as (_ & _ & _ & _ & _ & Hc & _).
  - by rewrite ViewPage_state.
  - unfold ResolvePage_doAuthenticatedGet, gets. rewrite bind_eq. cbv beta iota.
    by destruct (get_error key (errors st)) as [e|].
  - by destruct is_admin.
Qed.

(** X25.  No request writes a project to memcache: [getProject] reads
    the key ['project:%s' % name], and after any requests memcache
    holds under these keys what it held before.  With none of them set
    to begin with, every [getProject] is a [get_or_insert]. *)
Theorem project_cache_never_written rs st :
  cache_project (serve_all rs st) = cache_project st
  ∧ (cache_project st = ∅ →
     ∀ name, getProject name (serve_all rs st) = get_or_insert name (serve_all rs st)).
Proof.
  assert (cache_project (serve_all rs st) = cache_project st) as Hc.
  { unfold serve_all. revert st. induction rs as [|r rs IH]; simpl; intros st; [done|].
    by rewrite IH, serve_cache_project. }
  split; [done|]. intros Hempty name.
  unfold getProject, gets. rewrite bind_eq. cbv beta iota.
  rewrite Hc, Hempty. by rewrite bool_decide_false by set_solver.
Qed.

End StatsAndCache.

(** ** The further properties at sample inputs *)

Section ConcreteMore.
Import Sample Traffic.
#[local] Existing Instance externals.

(** The type and the backtrace of [split_early] and [split_late]. *)
Lemma generateHash_boundary_witness :
  generateHash ("Null" +:+ "Pointer") " at f(a.py)" = generateHash "Null" "Pointer at f(a.py)".
Proof.
  apply (generateHash_boundary "Null" "Pointer" "Pointer at f(a.py)" " at f(a.py)").
  reflexivity.
Defined.

Lemma texts_stay_bounded_witness :
  everywhere texts_bounded (serve_all requests empty_state).
Proof.
  apply (texts_stay_bounded requests empty_state).
  split; [constructor | apply map_Forall_empty].
Defined.

Lemma sets_stay_proper_witness :
  everywhere sets_proper (serve_all requests empty_state).
Proof.
  apply (sets_stay_proper requests empty_state).
  split; [constructor | apply map_Forall_empty].
Defined.

Lemma keys_stay_distinct_witness : ids_ok (serve_all requests empty_state).
Proof.
  apply (keys_stay_distinct requests empty_state).
  split; [split; simpl; constructor | apply map_Forall_empty].
Defined.

Lemma instances_only_appended_witness :
  instances empty_state `prefix_of` instances (serve_all requests empty_state).
Proof.
  apply (instances_only_appended requests empty_state).
  unfold requests. intros Hin.
  repeat (apply elem_of_cons in Hin as [Hin|Hin]; [discriminate Hin|]).
  by apply elem_of_nil in Hin.
Defined.



(** One more report for the error of [twice]: memcache holds the
    error as stored. *)
Lemma cache_written_on_update_only_witness :
  let st' := (putException project_str (npe "prod" 300) twice).2 in
  found project_str (npe_required "prod" 300) twice = Some twice_error
  ∧ cache_error st' !! cache_key project_str (npe_required "prod" 300)
    = get_error 0 (errors st')
  ∧ is_Some (cache_error st' !! cache_key project_str (npe_required "prod" 300)).
Proof.
  pose proof (cache_written_on_update_only project_str (npe "prod" 300)
                (npe_required "prod" 300) twice eq_refl) as Hw.
  assert (found project_str (npe_required "prod" 300) twice = Some twice_error) as Hf
    by (vm_compute; reflexivity).
  rewrite Hf in Hw. destruct Hw as (Hc & Hs & _). auto.
Defined.

(** Resolving the error of [twice]. *)
Lemma resolve_deactivates_witness :
  ∃ st' g',
    ResolvePage_doAuthenticatedGet 0 twice = (Returns (mkResponse 200 "ok"), st')
    ∧ get_error 0 (errors st') = Some g'
    ∧ LoggedErrorV2.active g' = false
    ∧ LoggedErrorV2.count g' = 2
    ∧ instances st' = instances twice.
Proof.
  pose proof (resolve_deactivates 0 twice) as Hw.
  assert (get_error 0 (errors twice) = Some twice_error) as Hg by (vm_compute; reflexivity).
  rewrite Hg in Hw. destruct Hw as (st' & g' & Hrun & Hget & Hact & Hsame & _ & Hi & _).
  exists st', g'. unfold same_but_active in Hsame. simpl in Hsame.
  destruct Hsame as (_ & _ & _ & _ & _ & Hcount & _). done.
Defined.

(** The errors of [thrice] that occurred in staging. *)
Lemma pages_of_one_listing_witness :
  let filters : gmap string string := {[ "environment" := "staging" ]} in
  ∃ all st',
    (∀ limit offset,
       getErrors filters limit offset thrice = (Returns (take limit (drop offset all)), st'))
    ∧ NoDup (LoggedErrorV2.key <$> all)
    ∧ ∀ v, v ∈ all →
           ∃ e, e ∈ errors thrice ∧ LoggedErrorV2.active e = true
                ∧ LoggedErrorV2.key v = LoggedErrorV2.key e.
Proof.
  apply (pages_of_one_listing {[ "environment" := "staging" ]} thrice).
  - intros v Hv. vm_compute in Hv. discriminate.
  - split; vm_compute; repeat constructor.
Defined.

(** The errors of project P in [thrice]. *)
Lemma unfiltered_list_witness :
  let filters : gmap string string := {[ "project" := "P" ]} in
  ∃ ordered st',
    getErrors filters 51 0 thrice = (Returns (take 51 (drop 0 ordered)), st')
    ∧ ordered ≡ₚ filter (listed filters) (errors thrice)
    ∧ StronglySorted
        (λ a b, LoggedErrorV2.lastOccurrence b ≤ LoggedErrorV2.lastOccurrence a) ordered.
Proof.
  apply (unfiltered_list {[ "project" := "P" ]} 51 0 thrice).
  intros k Hk. unfold INSTANCE_FILTERS in Hk.
  repeat (apply elem_of_cons in Hk as [->|Hk]; [vm_compute; reflexivity|]).
  by apply elem_of_nil in Hk.
Defined.

(** The affected user abc. *)
Lemma list_rejects_bad_user_filter_witness :
  getErrors {[ "affectedUser" := "abc" ]} 51 0 thrice = (Raises ValueError, thrice).
Proof.
  etrans;
    [apply (list_rejects_bad_user_filter {[ "affectedUser" := "abc" ]} "abc" 51 0 thrice)|].
  - vm_compute. reflexivity.
  - reflexivity.
  - vm_compute. reflexivity.
Defined.

(** Of the two errors of [two_errors], the first is resolved: the
    list shows the second only. *)
Lemma resolved_error_not_listed_witness :
  get_error 0 (errors two_errors) = Some early_error
  ∧ (getErrors ∅ 51 0 (ResolvePage_doAuthenticatedGet 0 two_errors).2).1
    = Returns [late_error]
  ∧ LoggedErrorV2.key late_error ≠ 0%nat.
Proof.
  assert (get_error 0 (errors two_errors) = Some early_error) as Hg
    by (vm_compute; reflexivity).
  assert ((getErrors ∅ 51 0 (ResolvePage_doAuthenticatedGet 0 two_errors).2).1
          = Returns [late_error]) as Hv by (vm_compute; reflexivity).
  split; [done|]. split; [done|].
  apply (resolved_error_not_listed 0 early_error two_errors ∅ 51 0 [late_error]
           (getErrors ∅ 51 0 (ResolvePage_doAuthenticatedGet 0 two_errors).2).2 late_error).
  - split; vm_compute; repeat constructor.
  - exact Hg.
  - rewrite <- Hv. by destruct (getErrors _ _ _ _).
  - apply list_elem_of_singleton. reflexivity.
Defined.

(** The first page of [thrice], with no parameter. *)
Lemma list_page_has_more_witness :
  ∃ views st',
    getErrors (getFilters []) 51 0 thrice = (Returns views, st')
    ∧ ListPage_doAuthenticatedGet [] thrice
      = (Returns {| list_filters := getFilters [];
                    list_errors := take 50 views;
                    list_hasMore :=
                      bool_decide (0 + 50 < listed_count (getFilters []) thrice)%nat;
                    list_nextPage := 0 + 1 |}, st')
    ∧ length (take 50 views) = (50 `min` (listed_count (getFilters []) thrice - 0))%nat.
Proof.
  apply (list_page_has_more [] 0 thrice).
  - reflexivity.
  - reflexivity.
  - reflexivity.
  - intros v Hv. vm_compute in Hv. discriminate.
Defined.

(** The page abc, and the page -1 without and with an
    occurrence-level filter. *)
Lemma list_page_rejects_bad_page_witness :
  ListPage_doAuthenticatedGet [("project", "Q"); ("page", "abc")] empty_state
  = (Raises ValueError, empty_state)
  ∧ ListPage_doAuthenticatedGet [("page", "-1")] empty_state
    = (Raises BadArgumentError, empty_state)
  ∧ ListPage_doAuthenticatedGet [("environment", "prod"); ("page", "-1")] empty_state
    = (Raises ValueError, empty_state).
Proof.
  pose proof (list_page_rejects_bad_page [("project", "Q"); ("page", "abc")] "abc"
                empty_state eq_refl) as Hw1.
  pose proof (list_page_rejects_bad_page [("page", "-1")] "-1" empty_state eq_refl) as Hw2.
  pose proof (list_page_rejects_bad_page [("environment", "prod"); ("page", "-1")] "-1"
                empty_state eq_refl) as Hw3.
  assert (int_of_str "abc" = None) as Hint by (vm_compute; reflexivity).
  assert (int_of_str "-1" = Some (-1)) as Hneg by (vm_compute; reflexivity).
  rewrite Hint in Hw1. rewrite Hneg in Hw2, Hw3.
  split; [exact Hw1|]. split.
  - etrans; [apply Hw2; lia|]. vm_compute. reflexivity.
  - etrans; [apply Hw3; lia|]. vm_compute. reflexivity.
Defined.

(** The occurrences in staging of the error of [thrice]. *)
Lemma view_page_instances_witness :
  ∃ error found,
    ViewPage_doAuthenticatedGet 0 [("environment", "staging")] thrice
    = (Returns (error, take 100 found), thrice)
    ∧ found ≡ₚ filter (λ i, LoggedErrorInstanceV2.parent_key i = 0%nat
                           ∧ passes (getFilters [("environment", "staging")]) i)
                 (instances thrice)
    ∧ StronglySorted
        (λ a b, LoggedErrorInstanceV2.date b ≤ LoggedErrorInstanceV2.date a) found.
Proof.
  assert (∀ v, getFilters [("environment", "staging")] !! "affectedUser" = Some v →
               is_Some (int_of_str v)) as Hint
    by (intros v Hv; vm_compute in Hv; discriminate).
  pose proof (view_page_instances 0 [("environment", "staging")] thrice Hint) as Hw.
  destruct (get_error 0 (errors thrice)) as [error|] eqn:Hg;
    [|vm_compute in Hg; discriminate].
  destruct Hw as (found & Hrun & Hperm & Hsorted). by exists error, found.
Defined.



(** The payload with the [userId] abc, delivered twice with the same
    text for the project. *)
Lemma rejected_user_id_counted_each_delivery_witness :
  ∃ x1 x2 st1 st2 g1 g2,
    ReportWorker_post (H := externals_of_user) project_str 0 queued_of_user = (Raises x1, st1)
    ∧ ReportWorker_post (H := externals_of_user) project_str 0 st1 = (Raises x2, st2)
    ∧ queue st2 = queue queued_of_user
    ∧ instances st2 = instances queued_of_user
    ∧ get_error (LoggedErrorV2.key g1) (errors st1) = Some g1
    ∧ get_error (LoggedErrorV2.key g1) (errors st2) = Some g2
    ∧ LoggedErrorV2.count g2 = LoggedErrorV2.count g1 + 1.
Proof.
  destruct (rejected_user_id_counted_each_delivery (H := externals_of_user)
              project_str project_str 0 payload_of_user (npe_of_user (JStr "abc"))
              (npe_required "prod" 100) queued_of_user)
    as (x1 & x2 & st1 & st2 & g1 & g2 & Hrun1 & Hrun2 & _ & _ & Hq & Hi & Hg1 & Hg2 & Hsame).
  - vm_compute. reflexivity.
  - vm_compute. reflexivity.
  - reflexivity.
  - reflexivity.
  - reflexivity.
  - destruct (Hsame eq_refl) as [Hk Hc]. rewrite Hk in Hg2.
    by exists x1, x2, st1, st2, g1, g2.
Defined.


(** The windows of 10 and 60 minutes over [three_occurrences]. *)
Lemma wider_window_counts_more_witness :
  ∃ c1 c2,
    stat_counts None 10000 ["10"; "60"] three_occurrences
    = (Returns [c1; c2], three_occurrences) ∧ (c1 ≤ c2)%nat.
Proof.
  apply (wider_window_counts_more None 10000 "10" "60" 10 60 three_occurrences).
  - reflexivity.
  - reflexivity.
  - lia.
  - unfold window_in_range, timedelta_max_days, datetime_min, datetime_max.
    change (10 `div` 1440) with 0. lia.
  - unfold window_in_range, timedelta_max_days, datetime_min, datetime_max.
    change (60 `div` 1440) with 0. lia.
Defined.

Lemma project_cache_never_written_witness :
  cache_project (serve_all requests empty_state) = ∅
  ∧ ∀ name,
      getProject name (serve_all requests empty_state)
      = get_or_insert name (serve_all requests empty_state).
Proof.
  destruct (project_cache_never_written requests empty_state) as [Hc Hget].
  split; [exact Hc | exact (Hget eq_refl)].
Defined.

End ConcreteMore.
